(** * electron-google-oauth2: the OAuth flow coordinator of [src/index.ts]

    A shallow embedding of the class [ElectronGoogleOAuth2] and of the
    collaborators it drives (the loopback redirect listener, the OAuth2
    client, Node's [url] and [querystring] modules), followed by the
    properties of the authorization-code capture protocol. *)

From Stdlib Require Import NArith Ascii String DecimalString.
From stdpp Require Import base option list gmap strings fin_maps.

Local Open Scope string_scope.
Local Open Scope list_scope.

(** ** JavaScript values that travel through the query object *)

Module Js.

(** A value of Node's [ParsedUrlQuery]: a string, or an array of strings
    when the key is repeated. An absent key reads as [undefined], which is
    [None] of [option QueryValue]. *)
Inductive QueryValue :=
| QStr (s : string)
| QArr (l : list string).

#[global] Instance QueryValue_eq_dec : EqDecision QueryValue.
Proof. solve_decision. Defined.

(** Truthiness, as tested by [if (v)] and [!v]: [undefined] and the empty
    string are falsy, every array is truthy. *)
Definition truthy (v : option QueryValue) : bool :=
  match v with
  | None => false
  | Some (QStr s) => negb (String.eqb s "")
  | Some (QArr _) => true
  end.

Fixpoint join (sep : string) (l : list string) : string :=
  match l with
  | [] => ""
  | [x] => x
  | x :: r => x +:+ sep +:+ join sep r
  end.

(** [String(v)] for a present value: an array prints its elements
    separated by commas. *)
Definition toString (v : QueryValue) : string :=
  match v with
  | QStr s => s
  | QArr l => join "," l
  end.

(** The classes of exception the flow can raise. [Error_ m] is
    [new Error(m)]; [UserClosedWindowError] is the exported subclass of
    lines 12-16, whose message is fixed; [ClientError] stands for whatever
    the OAuth2 client rejects with. *)
Inductive Exception :=
| Error_ (message : string)
| UserClosedWindowError
| ClientError (reason : string).

#[global] Instance Exception_eq_dec : EqDecision Exception.
Proof. solve_decision. Defined.

(** [new Error(m).message]: an [undefined] argument leaves the message
    empty, anything else is converted with [String]. *)
Definition newError (m : option QueryValue) : Exception :=
  match m with
  | None => Error_ ""
  | Some v => Error_ (toString v)
  end.

Definition message (e : Exception) : string :=
  match e with
  | Error_ m => m
  | UserClosedWindowError => "User closed the window"
  | ClientError r => r
  end.

(** [haystack.includes(needle)] on strings. *)
Fixpoint isPrefix (p s : string) : bool :=
  match p, s with
  | EmptyString, _ => true
  | String a p', String b s' => Ascii.eqb a b && isPrefix p' s'
  | String _ _, EmptyString => false
  end.

Fixpoint includes (needle haystack : string) : bool :=
  isPrefix needle haystack ||
  match haystack with
  | EmptyString => false
  | String _ r => includes needle r
  end.

End Js.
Export Js.

(** ** Node's [querystring] and the query part of [url.parse] *)

Module Querystring.

Definition code (c : ascii) : N := N_of_ascii c.

(** Characters [querystring.escape] leaves alone:
    [A-Z a-z 0-9 - _ . ! ~ * ' ( )]. *)
Definition noEscape (c : ascii) : bool :=
  let n := code c in
  ((48 <=? n) && (n <=? 57) || (65 <=? n) && (n <=? 90)
   || (97 <=? n) && (n <=? 122))%N
  || bool_decide (c ∈ ["!"; "'"; "("; ")"; "*"; "-"; "."; "_"; "~"]%char).

Definition hexDigit (n : N) : ascii :=
  if (n <? 10)%N then ascii_of_N (48 + n) else ascii_of_N (55 + n).

(** One byte as [%XX], upper-case digits. *)
Definition hexTable (c : ascii) : string :=
  String "%" (String (hexDigit (code c / 16)) (String (hexDigit (code c mod 16)) "")).

Fixpoint escape (s : string) : string :=
  match s with
  | EmptyString => ""
  | String c r => if noEscape c then String c (escape r) else hexTable c +:+ escape r
  end.

(** [querystring.stringify(obj)] for an object whose values are strings,
    given as its key/value pairs in insertion order. *)
Definition stringify (obj : list (string * string)) : string :=
  join "&" (map (fun kv => escape (fst kv) +:+ "=" +:+ escape (snd kv)) obj).

Definition hexValue (c : ascii) : option N :=
  let n := code c in
  if ((48 <=? n) && (n <=? 57))%N then Some (n - 48)%N
  else if ((65 <=? n) && (n <=? 70))%N then Some (n - 55)%N
  else if ((97 <=? n) && (n <=? 102))%N then Some (n - 87)%N
  else None.

(** Percent-decoding of one component; [plus] tells whether [+] stands for
    a space, as it does inside a query string. *)
Fixpoint unescape (plus : bool) (s : string) : string :=
  match s with
  | EmptyString => ""
  | String c rest =>
      let plain :=
        if plus && Ascii.eqb c "+" then String " " (unescape plus rest)
        else String c (unescape plus rest) in
      if Ascii.eqb c "%" then
        match rest with
        | String a (String b r) =>
            match hexValue a, hexValue b with
            | Some h, Some l => String (ascii_of_N (16 * h + l)) (unescape plus r)
            | _, _ => plain
            end
        | _ => plain
        end
      else plain
  end.

(** [s.split(sep)] for a one-character separator. *)
Fixpoint split (sep : ascii) (s : string) : list string :=
  match s with
  | EmptyString => [""]
  | String c r =>
      if Ascii.eqb c sep then "" :: split sep r
      else match split sep r with
           | h :: t => String c h :: t
           | [] => [String c ""]
           end
  end.

(** The text before the first [sep], and the text after it if there is
    one. *)
Fixpoint cut (sep : ascii) (s : string) : string * option string :=
  match s with
  | EmptyString => ("", None)
  | String c r =>
      if Ascii.eqb c sep then ("", Some r)
      else let '(a, b) := cut sep r in (String c a, b)
  end.

(** Adding one decoded pair to the object under construction: a repeated
    key collects its values in an array. *)
Definition addPair (k v : string) (obj : gmap string QueryValue)
  : gmap string QueryValue :=
  match obj !! k with
  | None => <[k := QStr v]> obj
  | Some (QStr v0) => <[k := QArr [v0; v]]> obj
  | Some (QArr l) => <[k := QArr (l ++ [v])]> obj
  end.

Definition parsePair (seg : string) (obj : gmap string QueryValue)
  : gmap string QueryValue :=
  if String.eqb seg "" then obj
  else let '(k, v) := cut "=" seg in
       addPair (unescape true k) (unescape true (default "" v)) obj.

(** [querystring.parse(qs)]: pairs separated by [&], key and value
    separated by the first [=], both percent-decoded. *)
Definition parse (qs : string) : gmap string QueryValue :=
  foldl (fun obj seg => parsePair seg obj) ∅ (split "&" qs).

End Querystring.

Module Url.

(** A reading of [url.parse(u, true).query] on the URLs the loopback
    listener hands over: the fragment is dropped, the query is what
    follows the first [?], and it is parsed by [querystring.parse]. The
    coordinator itself is stated over any parser (see [Section Flow]);
    this one serves to run it on concrete URLs. *)
Definition query (u : string) : gmap string QueryValue :=
  match snd (Querystring.cut "?" (fst (Querystring.cut "#" u))) with
  | None => ∅
  | Some qs => Querystring.parse qs
  end.

End Url.

(** ** The collaborators *)

(** The token bundle of google-auth-library: every field is optional and the
    coordinator never looks inside. *)
Record Credentials := {
  access_token : option string;
  refresh_token : option string;
  id_token : option string;
  token_type : option string;
  expiry_date : option N;
}.

#[global] Instance Credentials_eq_dec : EqDecision Credentials.
Proof. solve_decision. Defined.

Definition noCredentials : Credentials :=
  {| access_token := None; refresh_token := None; id_token := None;
     token_type := None; expiry_date := None |}.

Module Client.

(** The part of an [OAuth2Client] the coordinator touches: what it was
    constructed with, and its [credentials] store. *)
Record OAuth2Client := {
  clientId : string;
  clientSecret : string;
  redirectUri : string;
  credentials : Credentials;
}.

Definition new (id secret redirect : string) : OAuth2Client :=
  {| clientId := id; clientSecret := secret; redirectUri := redirect;
     credentials := noCredentials |}.

Definition setCredentials (c : Credentials) (o : OAuth2Client) : OAuth2Client :=
  {| clientId := clientId o; clientSecret := clientSecret o;
     redirectUri := redirectUri o; credentials := c |}.

(** The argument of [generateAuthUrl]. *)
Record GenerateAuthUrlOpts := {
  access_type : string;
  scope : list string;
  redirect_uri : string;
}.

(** How a [getToken(code)] request ends: the ['tokens'] events the client
    fired while serving it, and the promise's settlement, a rejection
    reason or the tokens of the response. *)
Record GetTokenReply := {
  emitted : list Credentials;
  outcome : string + Credentials;
}.

End Client.
Export Client.

Module Listener.

Inductive Status :=
| Listening
| Captured (reached : string)
| Closed.

#[global] Instance Status_eq_dec : EqDecision Status.
Proof. solve_decision. Defined.

(** Modelled from the spec: the class [LoopbackRedirectServer] of
    [./LoopbackRedirectServer], which the coordinator imports and which is
    not among the sources. A session is bound from its construction
    ([start] "binds a real network port") until it captures the callback
    request ("self-closing after success") or is closed. *)
Record LoopbackRedirectServer := {
  port : N;
  callbackPath : string;
  successRedirectURL : string;
  status : Status;
}.

Definition new (p : N) (path success : string) : LoopbackRedirectServer :=
  {| port := p; callbackPath := path; successRedirectURL := success;
     status := Listening |}.

Definition withStatus (s : Status) (l : LoopbackRedirectServer) : LoopbackRedirectServer :=
  {| port := port l; callbackPath := callbackPath l;
     successRedirectURL := successRedirectURL l; status := s |}.

(** Modelled from the spec: [close(handle)] "forcibly releases the socket";
    a session that already captured its request stays as it is. *)
Definition release (l : LoopbackRedirectServer) : LoopbackRedirectServer :=
  match status l with
  | Listening => withStatus Closed l
  | _ => l
  end.

Definition isListening (l : LoopbackRedirectServer) : bool :=
  bool_decide (status l = Listening).

End Listener.

(** ** Options *)

Record ElectronGoogleOAuth2Options := {
  successRedirectURL : string;
  loopbackInterfaceRedirectionPort : N;
  refocusAfterSuccess : bool;
}.

(** [Partial<ElectronGoogleOAuth2Options>]. *)
Record PartialOptions := {
  successRedirectURL' : option string;
  loopbackInterfaceRedirectionPort' : option N;
  refocusAfterSuccess' : option bool;
}.

Definition defaultElectronGoogleOAuth2Options : ElectronGoogleOAuth2Options :=
  {| successRedirectURL := "https://getstation.com/app-login-success/";
     loopbackInterfaceRedirectionPort := 42813;
     refocusAfterSuccess := true |}.

(** [{ ...defaultElectronGoogleOAuth2Options, ...options }]; an omitted
    argument defaults to the default options themselves. *)
Definition mergeOptions (o : option PartialOptions) : ElectronGoogleOAuth2Options :=
  match o with
  | None => defaultElectronGoogleOAuth2Options
  | Some p =>
      {| successRedirectURL :=
           default (successRedirectURL defaultElectronGoogleOAuth2Options)
                   (successRedirectURL' p);
         loopbackInterfaceRedirectionPort :=
           default (loopbackInterfaceRedirectionPort defaultElectronGoogleOAuth2Options)
                   (loopbackInterfaceRedirectionPort' p);
         refocusAfterSuccess :=
           default (refocusAfterSuccess defaultElectronGoogleOAuth2Options)
                   (refocusAfterSuccess' p) |}
  end.

(** [`http://127.0.0.1:${port}/callback`] *)
Definition loopbackUri (p : N) : string :=
  "http://127.0.0.1:" +:+ NilZero.string_of_uint (N.to_uint p) +:+ "/callback".

(** ** Scopes: an array shared with the caller *)

(** Arrays live in a store and are passed by reference. *)
Abbreviation Ref := nat (only parsing).
Abbreviation Heap := (gmap nat (list string)) (only parsing).

Definition arrayIncludes (x : string) (a : list string) : bool := bool_decide (x ∈ a).

(** [if (!scopes.includes(x)) scopes.push(x);] on the array behind [r]. *)
Definition pushIfMissing (x : string) (r : Ref) (h : Heap) : Heap :=
  match h !! r with
  | Some a => if arrayIncludes x a then h else <[r := a ++ [x]]> h
  | None => h
  end.

(** ** The coordinator and the attempts in flight *)

(** The public methods that start an attempt. *)
Inductive Entry :=
| GetAuthorizationCode (forceAddSession : bool)
| OpenAuthWindowAndGetAuthorizationCode (urlParam : string)
| OpenAuthWindowAndGetTokens (forceAddSession : bool).

Inductive Value :=
| VCode (code : QueryValue)
| VTokens (tokens : Credentials).

#[global] Instance Value_eq_dec : EqDecision Value.
Proof. solve_decision. Defined.

Inductive Settlement :=
| Fulfilled (v : Value)
| Rejected (e : Exception).

#[global] Instance Settlement_eq_dec : EqDecision Settlement.
Proof. solve_decision. Defined.

(** Where the promise returned by one call stands. [forTokens] tells whether
    the call came through [openAuthWindowAndGetTokens], whose [then] chain
    goes on to the exchange. *)
Inductive Task :=
| AwaitClose (forTokens : bool) (s : nat) (urlParam : string)   (* line 122 *)
| AwaitRedirection (forTokens : bool) (s : nat)                 (* line 133 *)
| AwaitToken (code : QueryValue)                                (* line 164 *)
| Settled (r : Settlement).

#[global] Instance Task_eq_dec : EqDecision Task.
Proof. solve_decision. Defined.

(** The object ([oauth2Client], [scopes], [server], [options]) together with
    what it acts on: the array store, the listener sessions ever constructed,
    the promises handed out, and the calls made to the outside. *)
Record State := {
  oauth2Client : OAuth2Client;
  scopes : Ref;
  server : option nat;
  options : ElectronGoogleOAuth2Options;
  heap : Heap;
  sessions : list Listener.LoopbackRedirectServer;
  tasks : list Task;
  opened : list string;            (* shell.openExternal(url) *)
  exchanges : list QueryValue;     (* oauth2Client.getToken(code) *)
  published : list Credentials;    (* this.emit('tokens', tokens) *)
  refocused : nat;                 (* passes over the visible windows *)
}.

Definition setClient (c : OAuth2Client) (st : State) : State :=
  {| oauth2Client := c; scopes := scopes st; server := server st;
     options := options st; heap := heap st; sessions := sessions st;
     tasks := tasks st; opened := opened st; exchanges := exchanges st;
     published := published st; refocused := refocused st |}.

Definition setServer (s : option nat) (st : State) : State :=
  {| oauth2Client := oauth2Client st; scopes := scopes st; server := s;
     options := options st; heap := heap st; sessions := sessions st;
     tasks := tasks st; opened := opened st; exchanges := exchanges st;
     published := published st; refocused := refocused st |}.

Definition setSessions (l : list Listener.LoopbackRedirectServer) (st : State) : State :=
  {| oauth2Client := oauth2Client st; scopes := scopes st; server := server st;
     options := options st; heap := heap st; sessions := l;
     tasks := tasks st; opened := opened st; exchanges := exchanges st;
     published := published st; refocused := refocused st |}.

Definition setTasks (l : list Task) (st : State) : State :=
  {| oauth2Client := oauth2Client st; scopes := scopes st; server := server st;
     options := options st; heap := heap st; sessions := sessions st;
     tasks := l; opened := opened st; exchanges := exchanges st;
     published := published st; refocused := refocused st |}.

Definition setOpened (l : list string) (st : State) : State :=
  {| oauth2Client := oauth2Client st; scopes := scopes st; server := server st;
     options := options st; heap := heap st; sessions := sessions st;
     tasks := tasks st; opened := l; exchanges := exchanges st;
     published := published st; refocused := refocused st |}.

Definition setExchanges (l : list QueryValue) (st : State) : State :=
  {| oauth2Client := oauth2Client st; scopes := scopes st; server := server st;
     options := options st; heap := heap st; sessions := sessions st;
     tasks := tasks st; opened := opened st; exchanges := l;
     published := published st; refocused := refocused st |}.

Definition setPublished (l : list Credentials) (st : State) : State :=
  {| oauth2Client := oauth2Client st; scopes := scopes st; server := server st;
     options := options st; heap := heap st; sessions := sessions st;
     tasks := tasks st; opened := opened st; exchanges := exchanges st;
     published := l; refocused := refocused st |}.

Definition setRefocused (n : nat) (st : State) : State :=
  {| oauth2Client := oauth2Client st; scopes := scopes st; server := server st;
     options := options st; heap := heap st; sessions := sessions st;
     tasks := tasks st; opened := opened st; exchanges := exchanges st;
     published := published st; refocused := n |}.

(** The constructor, lines 57-77. [scopes] is the caller's array, by
    reference; the handler of lines 74-76 is [onClientTokens] below. *)
Definition constructor (id secret : string) (scopesArg : Ref)
    (optionsArg : option PartialOptions) (h : Heap) : option State :=
  match h !! scopesArg with
  | None => None
  | Some _ =>
      let h1 := pushIfMissing "profile" scopesArg h in
      let h2 := pushIfMissing "email" scopesArg h1 in
      let opts := mergeOptions optionsArg in
      Some {| oauth2Client :=
                Client.new id secret (loopbackUri (loopbackInterfaceRedirectionPort opts));
              scopes := scopesArg;
              server := None;
              options := opts;
              heap := h2;
              sessions := [];
              tasks := [];
              opened := [];
              exchanges := [];
              published := [];
              refocused := 0 |}
  end.

(** Lines 74-76: every ['tokens'] event of the client is emitted again. *)
Definition onClientTokens (tokens : Credentials) (st : State) : State :=
  setPublished (published st ++ [tokens]) st.

(** Lines 172-174. *)
Definition setTokens (tokens : Credentials) (st : State) : State :=
  setClient (Client.setCredentials tokens (oauth2Client st)) st.

(** What a caller reads back as the current credentials. *)
Definition currentCredentials (st : State) : Credentials :=
  Client.credentials (oauth2Client st).

(** The sessions that hold the port, by index. *)
Definition bound (st : State) : list nat :=
  filter (fun i => from_option Listener.isListening false (sessions st !! i) = true)
         (seq 0 (length (sessions st))).

(** ** The flow *)

(** What can happen next: a caller starts an attempt, or one of the awaited
    promises of a pending attempt settles, or the caller or the client acts
    on the credentials. *)
Inductive Event :=
| Call (e : Entry)
| CloseDone (t : nat)                        (* [await this.server.close()] returns *)
| Redirected (t : nat) (reached : string)    (* [waitForRedirection()] resolves *)
| TokenReply (t : nat) (r : GetTokenReply)   (* [getToken(code)] settles *)
| SetTokens (tokens : Credentials)
| ClientTokens (tokens : Credentials).       (* the client refreshed on its own *)

Section Flow.

(** [url.parse(u, true).query] and [OAuth2Client.generateAuthUrl] belong to
    Node and to google-auth-library: the flow is defined over any of
    them. *)
Variable urlQuery : string -> gmap string QueryValue.
Variable clientGenerateAuthUrl : OAuth2Client -> GenerateAuthUrlOpts -> string.

(** Lines 85-89: the URL the client builds, here called the base
    authorization URL. [scope] is the array behind [this.scopes] as it is
    at the time of the call. *)
Definition baseAuthUrl (st : State) : string :=
  clientGenerateAuthUrl (oauth2Client st)
    {| access_type := "offline";
       scope := default [] (heap st !! scopes st);
       redirect_uri := loopbackUri (loopbackInterfaceRedirectionPort (options st)) |}.

(** Lines 84-97. *)
Definition generateAuthUrl (forceAddSession : bool) (st : State) : string :=
  let url := baseAuthUrl st in
  if forceAddSession then
    let qs := Querystring.stringify [("continue", url)] in
    "https://accounts.google.com/AddSession?" +:+ qs
  else url.

(** Lines 138-143 and 151: the thrown exception, or the returned code. *)
Definition authorizationCode (reached : string) : Exception + QueryValue :=
  let query := urlQuery reached in
  if truthy (query !! "error") then inl (newError (query !! "error_description"))
  else match query !! "code" with
       | Some code => if truthy (Some code) then inr code else inl (Error_ "Unknown")
       | None => inl (Error_ "Unknown")
       end.

(** Modelled from the spec: [close(handle)], "if a [waitForRedirection]
    call is still pending, settles it as canceled"; line 133 has no
    handler, so the attempt's promise rejects with the same exception. *)
Definition cancelWaiter (s : nat) (t : Task) : Task :=
  match t with
  | AwaitRedirection _ s' =>
      if decide (s' = s) then Settled (Rejected UserClosedWindowError) else t
  | _ => t
  end.

(** [this.server.close()], up to the point where it returns its promise. *)
Definition closeServer (s : nat) (st : State) : State :=
  let st1 := setSessions (alter Listener.release s (sessions st)) st in
  setTasks (cancelWaiter s <$> tasks st1) st1.

(** Lines 125-131: construct the listener, keep it, open the page. *)
Definition startServer (urlParam : string) (st : State) : nat * State :=
  let s := length (sessions st) in
  let l := Listener.new (loopbackInterfaceRedirectionPort (options st)) "/callback"
                        (successRedirectURL (options st)) in
  let st1 := setSessions (sessions st ++ [l]) st in
  let st2 := setServer (Some s) st1 in
  (s, setOpened (opened st2 ++ [urlParam]) st2).

(** Lines 118-133, from the call to the first [await] it stops at. *)
Definition openAuthPageAndGetAuthorizationCode (forTokens : bool) (urlParam : string)
    (st : State) : State :=
  match server st with
  | Some s =>
      let st1 := closeServer s st in
      setTasks (tasks st1 ++ [AwaitClose forTokens s urlParam]) st1
  | None =>
      let '(s, st1) := startServer urlParam st in
      setTasks (tasks st1 ++ [AwaitRedirection forTokens s]) st1
  end.

Definition call (e : Entry) (st : State) : State :=
  match e with
  | GetAuthorizationCode force =>
      openAuthPageAndGetAuthorizationCode false (generateAuthUrl force st) st
  | OpenAuthWindowAndGetAuthorizationCode urlParam =>
      openAuthPageAndGetAuthorizationCode false urlParam st
  | OpenAuthWindowAndGetTokens force =>
      openAuthPageAndGetAuthorizationCode true (generateAuthUrl force st) st
  end.

Definition settle (t : nat) (r : Settlement) (st : State) : State :=
  setTasks (<[t := Settled r]> (tasks st)) st.

(** Lines 123-133, resumed after [await this.server.close()]. *)
Definition afterClose (t : nat) (st : State) : option State :=
  match tasks st !! t with
  | Some (AwaitClose forTokens _ urlParam) =>
      let st1 := setServer None st in
      let '(s, st2) := startServer urlParam st1 in
      Some (setTasks (<[t := AwaitRedirection forTokens s]> (tasks st2)) st2)
  | _ => None
  end.

(** Lines 136-151 and 162-164, resumed when the listener awaited by [t]
    captures [reached] and closes itself. *)
Definition afterRedirection (t : nat) (reached : string) (st : State) : option State :=
  match tasks st !! t with
  | Some (AwaitRedirection forTokens s) =>
      match sessions st !! s with
      | Some l =>
          if Listener.isListening l then
            let st1 :=
              setSessions (<[s := Listener.withStatus (Listener.Captured reached) l]>
                             (sessions st)) st in
            let st2 := setServer None st1 in
            match authorizationCode reached with
            | inl e => Some (settle t (Rejected e) st2)
            | inr code =>
                let st3 :=
                  if refocusAfterSuccess (options st2)
                  then setRefocused (S (refocused st2)) st2 else st2 in
                if forTokens then
                  let st4 := setExchanges (exchanges st3 ++ [code]) st3 in
                  Some (setTasks (<[t := AwaitToken code]> (tasks st4)) st4)
                else Some (settle t (Fulfilled (VCode code)) st3)
            end
          else None
      | None => None
      end
  | _ => None
  end.

(** Lines 165-168, and the rejection passing through the [then] chain. *)
Definition afterToken (t : nat) (r : GetTokenReply) (st : State) : option State :=
  match tasks st !! t with
  | Some (AwaitToken _) =>
      let st1 := foldl (fun s tokens => onClientTokens tokens s) st (emitted r) in
      match outcome r with
      | inr tokens => Some (settle t (Fulfilled (VTokens tokens)) (setTokens tokens st1))
      | inl reason => Some (settle t (Rejected (ClientError reason)) st1)
      end
  | _ => None
  end.

(** One event; [None] when the event cannot happen in this state. *)
Definition step (ev : Event) (st : State) : option State :=
  match ev with
  | Call e => Some (call e st)
  | CloseDone t => afterClose t st
  | Redirected t reached => afterRedirection t reached st
  | TokenReply t r => afterToken t r st
  | SetTokens tokens => Some (setTokens tokens st)
  | ClientTokens tokens => Some (onClientTokens tokens st)
  end.

Fixpoint run (evs : list Event) (st : State) : option State :=
  match evs with
  | [] => Some st
  | ev :: rest =>
      match step ev st with
      | Some st' => run rest st'
      | None => None
      end
  end.

End Flow.

(** google-auth-library builds the authorization URL by stringifying its
    options behind the endpoint; this instance is used to run the flow on
    concrete inputs. *)
Definition googleAuthUrl (c : OAuth2Client) (o : GenerateAuthUrlOpts) : string :=
  "https://accounts.google.com/o/oauth2/v2/auth?" +:+
  Querystring.stringify
    [("access_type", access_type o); ("scope", join " " (scope o));
     ("redirect_uri", redirect_uri o); ("response_type", "code");
     ("client_id", clientId c)].

(** A caller that owns the array [["calendar"]] at reference 0 and builds
    the coordinator with the default options. *)
Definition calendarHeap : Heap := {[ 0 := ["calendar"] ]}.

Definition calendar : option State :=
  constructor "client-id" "client-secret" 0 None calendarHeap.

(** The outcomes of the redirect, in the words of the data model: a denial
    and a malformed redirect are both a thrown [Error], told apart by the
    message only. *)
Definition Code (code : QueryValue) : Exception + QueryValue := inr code.
Definition Denied (reason : string) : Exception + QueryValue := inl (Error_ reason).
Definition Malformed : Exception + QueryValue := inl (Error_ "Unknown").

(** The entries the constructor has to add to the array [a]. *)
Definition missingScopes (a : list string) : list string :=
  (if arrayIncludes "profile" a then [] else ["profile"]) ++
  (if arrayIncludes "email" a then [] else ["email"]).

(** The reason the spec's decision table gives a denial: the description,
    or else the error. *)
Definition tableReason (q : gmap string QueryValue) : string :=
  match q !! "error_description" with
  | Some d => toString d
  | None => from_option toString "" (q !! "error")
  end.

(** The coordinator that [calendar] builds, spelled out. *)
Definition calendarState : State :=
  {| oauth2Client :=
       {| clientId := "client-id"; clientSecret := "client-secret";
          redirectUri := "http://127.0.0.1:42813/callback";
          credentials := noCredentials |};
     scopes := 0;
     server := None;
     options := defaultElectronGoogleOAuth2Options;
     heap := {[ 0 := ["calendar"; "profile"; "email"] ]};
     sessions := [];
     tasks := [];
     opened := [];
     exchanges := [];
     published := [];
     refocused := 0 |}.

(** The same coordinator after one call of [openAuthWindowAndGetTokens()],
    waiting for the redirect. *)
Definition awaitingRedirect : State :=
  call googleAuthUrl (OpenAuthWindowAndGetTokens false) calendarState.

Definition defaultListener : Listener.LoopbackRedirectServer :=
  Listener.new 42813 "/callback" "https://getstation.com/app-login-success/".

Definition sampleBundle : Credentials :=
  {| access_token := Some "a"; refresh_token := Some "r"; id_token := None;
     token_type := None; expiry_date := None |}.

(** ** Ownership of the port *)

(** Session [i] holds the port. *)
Definition isBound (st : State) (i : nat) : Prop :=
  exists l, sessions st !! i = Some l /\ Listener.status l = Listener.Listening.

(** Some attempt is suspended at line 122, waiting for a close. *)
Definition closing (st : State) : Prop :=
  exists t f s u, tasks st !! t = Some (AwaitClose f s u).

(** An event is serial when it is not a call made while another call is
    suspended at line 122. *)
Definition serial (ev : Event) (st : State) : Prop :=
  match ev with
  | Call _ => ~ closing st
  | _ => True
  end.

(** The bound session, if any, is the one in [this.server], and nothing is
    bound while a close is awaited; at most one attempt awaits a close. *)
Definition owned (st : State) : Prop :=
  (forall i, isBound st i -> server st = Some i /\ ~ closing st)
  /\ (forall t t' f s u f' s' u',
        tasks st !! t = Some (AwaitClose f s u) ->
        tasks st !! t' = Some (AwaitClose f' s' u') -> t = t').

(** A run made of serial events only. *)
Fixpoint serialRun (urlQuery : string -> gmap string QueryValue)
    (gen : OAuth2Client -> GenerateAuthUrlOpts -> string)
    (evs : list Event) (st st'' : State) : Prop :=
  match evs with
  | [] => st = st''
  | ev :: rest =>
      serial ev st
      /\ exists st', step urlQuery gen ev st = Some st'
                     /\ serialRun urlQuery gen rest st' st''
  end.

(** ** Runs as a whole *)

(** The URL an entry point hands to [openAuthPageAndGetAuthorizationCode]
    (lines 104-116 and 159-161). *)
Definition entryUrl (gen : OAuth2Client -> GenerateAuthUrlOpts -> string)
    (e : Entry) (st : State) : string :=
  match e with
  | GetAuthorizationCode force => generateAuthUrl gen force st
  | OpenAuthWindowAndGetAuthorizationCode urlParam => urlParam
  | OpenAuthWindowAndGetTokens force => generateAuthUrl gen force st
  end.

(** Whether the entry point goes on to the token exchange. *)
Definition entryForTokens (e : Entry) : bool :=
  match e with
  | OpenAuthWindowAndGetTokens _ => true
  | _ => false
  end.

(** The ['tokens'] events the client fires in the course of one event, and
    of a list of events. *)
Definition clientEventsOf (ev : Event) : list Credentials :=
  match ev with
  | TokenReply _ r => emitted r
  | ClientTokens tokens => [tokens]
  | _ => []
  end.

Fixpoint clientEvents (evs : list Event) : list Credentials :=
  match evs with
  | [] => []
  | ev :: rest => clientEventsOf ev ++ clientEvents rest
  end.

(** Every listener constructed so far listens where the options say, on
    the path of the redirect URI the client was given. *)
Definition configuredBy (o : ElectronGoogleOAuth2Options) (st : State) : Prop :=
  options st = o
  /\ redirectUri (oauth2Client st) = loopbackUri (loopbackInterfaceRedirectionPort o)
  /\ (forall i l, sessions st !! i = Some l ->
                  Listener.port l = loopbackInterfaceRedirectionPort o
                  /\ Listener.callbackPath l = "/callback"
                  /\ Listener.successRedirectURL l = successRedirectURL o).

(** Every character of [s] passes [p]. *)
Fixpoint allChars (p : ascii -> bool) (s : string) : bool :=
  match s with
  | EmptyString => true
  | String c r => p c && allChars p r
  end.

(** The characters an escaped component is made of: the unreserved ones and
    the percent sign. *)
Definition urlSafe (c : ascii) : bool := Querystring.noEscape c || Ascii.eqb c "%".

(** The coordinator of [awaitingRedirect] once its listener has captured a
    redirect with a code: the exchange is under way. *)
Definition awaitingToken : State :=
  default awaitingRedirect
    (step Url.query googleAuthUrl
       (Redirected 0 "http://127.0.0.1:42813/callback?code=XYZ") awaitingRedirect).

(** A whole successful flow on [calendarState], followed by a refresh on the
    client's side and by a caller resetting the credentials. *)
Definition sampleRun : list Event :=
  [Call (OpenAuthWindowAndGetTokens false);
   Redirected 0 "http://127.0.0.1:42813/callback?code=XYZ";
   TokenReply 0 {| emitted := [sampleBundle]; outcome := inr sampleBundle |};
   ClientTokens sampleBundle;
   SetTokens noCredentials].

(** * Properties *)

(** ** Scope normalisation and aliasing *)

Lemma pushIfMissing_lookup x r (h : Heap) a :
  h !! r = Some a ->
  pushIfMissing x r h !! r = Some (if arrayIncludes x a then a else a ++ [x]).
Proof.
  intros Hr. unfold pushIfMissing. rewrite Hr.
  destruct (arrayIncludes x a); [exact Hr | apply lookup_insert_eq].
Qed.

Lemma pushIfMissing_other x r r' (h : Heap) :
  r' ≠ r -> pushIfMissing x r h !! r' = h !! r'.
Proof.
  intros Hne. unfold pushIfMissing.
  destruct (h !! r) as [a|]; [|reflexivity].
  destruct (arrayIncludes x a); [reflexivity|].
  apply lookup_insert_ne. congruence.
Qed.

Lemma arrayIncludes_true x (a : list string) : arrayIncludes x a = true <-> x ∈ a.
Proof. unfold arrayIncludes. apply bool_decide_eq_true. Qed.

Lemma arrayIncludes_false x (a : list string) : arrayIncludes x a = false <-> x ∉ a.
Proof. unfold arrayIncludes. apply bool_decide_eq_false. Qed.

Lemma arrayIncludes_snoc_ne x y (a : list string) :
  x ≠ y -> arrayIncludes x (a ++ [y]) = arrayIncludes x a.
Proof.
  intros Hne. unfold arrayIncludes. apply bool_decide_ext.
  rewrite elem_of_app, list_elem_of_singleton. tauto.
Qed.

(** The array behind the caller's reference after the two pushes. *)
Lemma constructor_heap id secret r opts (h : Heap) a :
  h !! r = Some a ->
  exists st, constructor id secret r opts h = Some st
             /\ scopes st = r
             /\ heap st !! r = Some (a ++ missingScopes a)
             /\ (forall r', r' ≠ r -> heap st !! r' = h !! r').
Proof.
  intros Hr. unfold constructor. rewrite Hr. eexists. split; [reflexivity|].
  cbn [scopes heap]. split; [reflexivity|]. split.
  - rewrite (pushIfMissing_lookup "email" r _ _ (pushIfMissing_lookup "profile" r h a Hr)).
    f_equal. unfold missingScopes.
    destruct (arrayIncludes "profile" a) eqn:Hp.
    + destruct (arrayIncludes "email" a); [symmetry; apply app_nil_r | reflexivity].
    + rewrite arrayIncludes_snoc_ne by discriminate.
      destruct (arrayIncludes "email" a); cbn [app].
      * reflexivity.
      * rewrite <- app_assoc. reflexivity.
  - intros r' Hne. rewrite !pushIfMissing_other by exact Hne. reflexivity.
Qed.

Lemma missingScopes_complete (a : list string) :
  "profile" ∈ a ++ missingScopes a /\ "email" ∈ a ++ missingScopes a.
Proof.
  unfold missingScopes. split.
  - destruct (arrayIncludes "profile" a) eqn:Hp.
    + apply elem_of_app. left. apply arrayIncludes_true, Hp.
    + apply elem_of_app. right. apply elem_of_app. left. apply list_elem_of_singleton. reflexivity.
  - destruct (arrayIncludes "email" a) eqn:He.
    + apply elem_of_app. left. apply arrayIncludes_true, He.
    + apply elem_of_app. right. apply elem_of_app. right. apply list_elem_of_singleton. reflexivity.
Qed.

Lemma missingScopes_elem (a : list string) x :
  x ∈ missingScopes a -> (x ∉ a) /\ (x = "profile" \/ x = "email").
Proof.
  unfold missingScopes. rewrite elem_of_app.
  destruct (arrayIncludes "profile" a) eqn:Hp, (arrayIncludes "email" a) eqn:He;
    intros [Hx|Hx];
    try (apply elem_of_nil in Hx; contradiction);
    apply list_elem_of_singleton in Hx; subst x;
    (split; [apply arrayIncludes_false; assumption | tauto]).
Qed.

(** C5: the scope list of a constructed coordinator is the caller's list,
    entries and order untouched, followed by those of ['profile'] and
    ['email'] (in this order) that it lacked; so it contains both, a list
    lacking both gets both appended, and a list holding both is unchanged. *)
Theorem C5_scopes_normalized id secret r opts (h : Heap) a :
  h !! r = Some a ->
  exists st n,
    constructor id secret r opts h = Some st
    /\ heap st !! scopes st = Some n
    /\ "profile" ∈ n /\ "email" ∈ n
    /\ n = a ++ missingScopes a
    /\ (forall i x, a !! i = Some x -> n !! i = Some x)
    /\ ("profile" ∉ a -> "email" ∉ a -> n = a ++ ["profile"; "email"])
    /\ ("profile" ∈ a -> "email" ∉ a -> n = a ++ ["email"])
    /\ ("profile" ∉ a -> "email" ∈ a -> n = a ++ ["profile"])
    /\ ("profile" ∈ a -> "email" ∈ a -> n = a).
Proof.
  intros Hr.
  destruct (constructor_heap id secret r opts h a Hr) as (st & Hc & Hs & Hh & _).
  exists st, (a ++ missingScopes a).
  split; [exact Hc|]. split; [rewrite Hs; exact Hh|].
  split; [apply missingScopes_complete|]. split; [apply missingScopes_complete|].
  split; [reflexivity|].
  split; [intros i x Hi; apply (lookup_app_l_Some a); exact Hi|].
  unfold missingScopes.
  repeat split; intros Hp He;
    try apply arrayIncludes_true in Hp; try apply arrayIncludes_false in Hp;
    try apply arrayIncludes_true in He; try apply arrayIncludes_false in He;
    rewrite Hp, He; cbn [app]; try reflexivity; apply app_nil_r.
Qed.

Lemma C5_scopes_normalized_witness :
  exists st, calendar = Some st
             /\ heap st !! scopes st = Some ["calendar"; "profile"; "email"].
Proof.
  destruct (C5_scopes_normalized "client-id" "client-secret" 0 None calendarHeap
              ["calendar"] eq_refl)
    as (st & n & Hc & Hn & _ & _ & Heq & _).
  exists st. split; [exact Hc|]. rewrite Hn, Heq. reflexivity.
Defined.

(** C10: the constructor keeps the caller's reference and pushes onto the
    array behind it: when ['profile'] or ['email'] is missing, the caller's
    own array ends up longer, by exactly the missing entries, and no other
    array changes. *)
Theorem C10_constructor_mutates_argument id secret r opts (h : Heap) a :
  h !! r = Some a ->
  "profile" ∉ a \/ "email" ∉ a ->
  exists st extra,
    constructor id secret r opts h = Some st
    /\ scopes st = r
    /\ heap st !! r = Some (a ++ extra)
    /\ extra ≠ []
    /\ extra = missingScopes a
    /\ (forall x, x ∈ extra -> (x ∉ a) /\ (x = "profile" \/ x = "email"))
    /\ (forall r', r' ≠ r -> heap st !! r' = h !! r').
Proof.
  intros Hr Hmiss.
  destruct (constructor_heap id secret r opts h a Hr) as (st & Hc & Hs & Hh & Hother).
  exists st, (missingScopes a).
  split; [exact Hc|]. split; [exact Hs|]. split; [exact Hh|].
  split; [|split; [reflexivity|split; [apply missingScopes_elem | exact Hother]]].
  unfold missingScopes. destruct Hmiss as [Hp|He].
  - apply arrayIncludes_false in Hp. rewrite Hp. discriminate.
  - apply arrayIncludes_false in He. rewrite He.
    destruct (arrayIncludes "profile" a); discriminate.
Qed.

Lemma C10_constructor_mutates_argument_witness :
  exists st, calendar = Some st
             /\ scopes st = 0
             /\ heap st !! 0 = Some (["calendar"] ++ ["profile"; "email"]).
Proof.
  destruct (C10_constructor_mutates_argument "client-id" "client-secret" 0 None
              calendarHeap ["calendar"] eq_refl)
    as (st & extra & Hc & Hs & Hh & _ & He & _).
  - left. apply arrayIncludes_false. reflexivity.
  - exists st. rewrite He in Hh. repeat split; assumption.
Defined.

(** ** The authorization URL *)

Lemma hex_roundtrip c :
  Querystring.hexValue (Querystring.hexDigit (Querystring.code c / 16)) = Some (Querystring.code c / 16)%N
  /\ Querystring.hexValue (Querystring.hexDigit (Querystring.code c mod 16)) = Some (Querystring.code c mod 16)%N.
Proof.
  destruct c as [[] [] [] [] [] [] [] []]; split; vm_compute; reflexivity.
Qed.

Lemma noEscape_plain c :
  Querystring.noEscape c = true -> Ascii.eqb c "%" = false.
Proof.
  destruct c as [[] [] [] [] [] [] [] []]; vm_compute; congruence.
Qed.

Lemma ascii_of_code c :
  ascii_of_N (16 * (Querystring.code c / 16) + Querystring.code c mod 16) = c.
Proof.
  unfold Querystring.code.
  rewrite <- N.div_mod by discriminate. apply ascii_N_embedding.
Qed.

Lemma unescape_percent plus a b r h l :
  Querystring.hexValue a = Some h -> Querystring.hexValue b = Some l ->
  Querystring.unescape plus (String "%" (String a (String b r)))
  = String (ascii_of_N (16 * h + l)) (Querystring.unescape plus r).
Proof.
  intros Ha Hb. cbn [Querystring.unescape].
  change (Ascii.eqb "%" "%") with true. cbv iota.
  rewrite Ha, Hb. reflexivity.
Qed.


Lemma escape_continue : Querystring.escape "continue" = "continue".
Proof. reflexivity. Qed.

Section AuthUrl.

Variable clientGenerateAuthUrl : OAuth2Client -> GenerateAuthUrlOpts -> string.


End AuthUrl.

(** ** Seeding credentials *)

(** C9: after [setTokens(bundle)] the current credentials are [bundle], and
    nothing else of the coordinator or its surroundings has changed. *)
Theorem C9_setTokens_roundtrip (st : State) (bundle : Credentials) :
  currentCredentials (setTokens bundle st) = bundle
  /\ clientId (oauth2Client (setTokens bundle st)) = clientId (oauth2Client st)
  /\ clientSecret (oauth2Client (setTokens bundle st)) = clientSecret (oauth2Client st)
  /\ redirectUri (oauth2Client (setTokens bundle st)) = redirectUri (oauth2Client st)
  /\ scopes (setTokens bundle st) = scopes st
  /\ server (setTokens bundle st) = server st
  /\ options (setTokens bundle st) = options st
  /\ heap (setTokens bundle st) = heap st
  /\ sessions (setTokens bundle st) = sessions st
  /\ tasks (setTokens bundle st) = tasks st
  /\ opened (setTokens bundle st) = opened st
  /\ exchanges (setTokens bundle st) = exchanges st
  /\ published (setTokens bundle st) = published st.
Proof. repeat split. Qed.

(** ** Reading the redirect *)

Example query_code :
  Url.query "http://127.0.0.1:42813/callback?code=ABC123" = {[ "code" := QStr "ABC123" ]}.
Proof. vm_compute. reflexivity. Qed.

Example query_denied :
  Url.query "http://127.0.0.1:42813/callback?error=access_denied&error_description=User+denied"
  !! "error_description" = Some (QStr "User denied").
Proof. vm_compute. reflexivity. Qed.

Example escape_sample :
  Querystring.escape "https://a.b/c?x=1&y=a b" = "https%3A%2F%2Fa.b%2Fc%3Fx%3D1%26y%3Da%20b".
Proof. vm_compute. reflexivity. Qed.

Section Redirect.

Variable urlQuery : string -> gmap string QueryValue.

(** The message of the [Error] thrown at line 140. *)
Lemma newError_description (d : option QueryValue) :
  newError d = Error_ (from_option toString "" d).
Proof. destruct d; reflexivity. Qed.

(** Extraction never produces anything but a plain [Error]. *)
Lemma authorizationCode_throws_Error reached e :
  authorizationCode urlQuery reached = inl e -> exists m, e = Error_ m.
Proof.
  unfold authorizationCode.
  destruct (truthy (urlQuery reached !! "error")).
  - intros [= <-]. rewrite newError_description. eauto.
  - destruct (urlQuery reached !! "code") as [c|].
    + destruct (truthy (Some c)); [discriminate|]. intros [= <-]. eauto.
    + intros [= <-]. eauto.
Qed.

Lemma authorizationCode_denied reached (e : QueryValue) :
  urlQuery reached !! "error" = Some e ->
  truthy (Some e) = true ->
  authorizationCode urlQuery reached
  = inl (Error_ (from_option toString "" (urlQuery reached !! "error_description"))).
Proof.
  intros He Ht. unfold authorizationCode.
  rewrite He, Ht, newError_description. reflexivity.
Qed.

(** C2, as the code has it: a redirect whose [error] parameter is not
    empty is a denial whatever else the query holds ([code] included); its
    reason is the [error_description] value, and the empty string when
    there is none. The [error] value itself never becomes the reason. *)
Theorem C2_denied_reason_is_description reached (e : QueryValue) :
  urlQuery reached !! "error" = Some e ->
  truthy (Some e) = true ->
  authorizationCode urlQuery reached
  = Denied (from_option toString "" (urlQuery reached !! "error_description")).
Proof.
  intros He Ht. unfold authorizationCode, Denied.
  rewrite He, Ht. destruct (urlQuery reached !! "error_description"); reflexivity.
Qed.

(** C3, as the code has it: without an [error] parameter, a [code]
    parameter that is not empty is returned as it is, and a redirect with
    no [code], or an empty one, is malformed. *)
Theorem C3_code_or_malformed reached :
  urlQuery reached !! "error" = None ->
  (forall c, urlQuery reached !! "code" = Some c -> truthy (Some c) = true ->
             authorizationCode urlQuery reached = Code c)
  /\ (forall c, urlQuery reached !! "code" = Some c -> truthy (Some c) = false ->
                authorizationCode urlQuery reached = Malformed)
  /\ (urlQuery reached !! "code" = None ->
      authorizationCode urlQuery reached = Malformed).
Proof.
  intros He. unfold authorizationCode, Code, Malformed. rewrite He. cbn [truthy].
  split; [|split].
  - intros c Hc Ht. rewrite Hc, Ht. reflexivity.
  - intros c Hc Ht. rewrite Hc, Ht. reflexivity.
  - intros Hc. rewrite Hc. reflexivity.
Qed.

End Redirect.

(** C2 fails where the provider sends [error] alone: the thrown [Error] has
    an empty message, not the error value. *)
Lemma C2_error_alone_has_empty_reason :
  let reached := "http://127.0.0.1:42813/callback?error=access_denied" in
  Url.query reached !! "error" = Some (QStr "access_denied")
  /\ tableReason (Url.query reached) = "access_denied"
  /\ authorizationCode Url.query reached = Denied ""
  /\ authorizationCode Url.query reached ≠ Denied (tableReason (Url.query reached)).
Proof. vm_compute. repeat split. discriminate. Qed.

Lemma C2_denied_witness :
  authorizationCode Url.query
    "http://127.0.0.1:42813/callback?error=access_denied&error_description=User+denied&code=ABC123"
  = Denied "User denied".
Proof.
  apply (C2_denied_reason_is_description Url.query
           "http://127.0.0.1:42813/callback?error=access_denied&error_description=User+denied&code=ABC123"
           (QStr "access_denied")).
  - vm_compute. reflexivity.
  - reflexivity.
Defined.

(** C3 fails on an empty [code]: the parameter is there, and the redirect is
    malformed all the same. *)
Lemma C3_empty_code_is_malformed :
  let reached := "http://127.0.0.1:42813/callback?code=" in
  Url.query reached !! "error" = None
  /\ Url.query reached !! "code" = Some (QStr "")
  /\ authorizationCode Url.query reached = Malformed
  /\ authorizationCode Url.query reached ≠ Code (QStr "").
Proof. vm_compute. repeat split. discriminate. Qed.

Lemma C3_code_witness :
  authorizationCode Url.query "http://127.0.0.1:42813/callback?code=ABC123"
  = Code (QStr "ABC123")
  /\ authorizationCode Url.query "http://127.0.0.1:42813/callback" = Malformed.
Proof.
  split.
  - apply (proj1 (C3_code_or_malformed Url.query
                    "http://127.0.0.1:42813/callback?code=ABC123" eq_refl)).
    + vm_compute. reflexivity.
    + reflexivity.
  - apply (proj2 (proj2 (C3_code_or_malformed Url.query
                           "http://127.0.0.1:42813/callback" eq_refl))).
    reflexivity.
Defined.

(** ** The attempts *)

Lemma cancelWaiter_settled s r : cancelWaiter s (Settled r) = Settled r.
Proof. reflexivity. Qed.

Lemma closeServer_tasks s st : tasks (closeServer s st) = cancelWaiter s <$> tasks st.
Proof. reflexivity. Qed.

Lemma closeServer_cancels s st t forTokens :
  tasks st !! t = Some (AwaitRedirection forTokens s) ->
  tasks (closeServer s st) !! t = Some (Settled (Rejected UserClosedWindowError)).
Proof.
  intros Ht. rewrite closeServer_tasks, list_lookup_fmap, Ht. cbn.
  destruct (decide (s = s)); [reflexivity | contradiction].
Qed.

Lemma onClientTokens_fold (es : list Credentials) st :
  let st1 := foldl (fun s tokens => onClientTokens tokens s) st es in
  published st1 = published st ++ es
  /\ oauth2Client st1 = oauth2Client st
  /\ tasks st1 = tasks st
  /\ sessions st1 = sessions st
  /\ server st1 = server st
  /\ refocused st1 = refocused st
  /\ exchanges st1 = exchanges st
  /\ opened st1 = opened st
  /\ heap st1 = heap st /\ scopes st1 = scopes st /\ options st1 = options st.
Proof.
  cbv zeta. induction es as [|c cs IH] using rev_ind.
  - cbn. rewrite app_nil_r. repeat split.
  - rewrite foldl_app. cbn [foldl].
    destruct IH as (Hp & Hrest). split; [|exact Hrest].
    cbn. rewrite Hp, app_assoc. reflexivity.
Qed.

Section Attempts.

Variable urlQuery : string -> gmap string QueryValue.
Variable clientGenerateAuthUrl : OAuth2Client -> GenerateAuthUrlOpts -> string.

(** A call that finds a listener in [this.server] closes it first. *)
Lemma openAuthPage_supersedes forTokens urlParam st s :
  server st = Some s ->
  openAuthPageAndGetAuthorizationCode forTokens urlParam st
  = setTasks (tasks (closeServer s st) ++ [AwaitClose forTokens s urlParam])
             (closeServer s st).
Proof. intros Hs. unfold openAuthPageAndGetAuthorizationCode. rewrite Hs. reflexivity. Qed.

Lemma call_supersedes e st s t forTokens :
  server st = Some s ->
  tasks st !! t = Some (AwaitRedirection forTokens s) ->
  tasks (call clientGenerateAuthUrl e st) !! t = Some (Settled (Rejected UserClosedWindowError)).
Proof.
  intros Hs Ht.
  destruct e; cbn [call]; rewrite (openAuthPage_supersedes _ _ _ _ Hs);
    cbn [tasks setTasks]; apply lookup_app_l_Some;
    apply (closeServer_cancels s st t forTokens Ht).
Qed.

(** C4: an attempt waiting on a listener that gets closed, be it by a
    new call finding that listener in place or by closing it directly, is
    settled at once, rejected with [UserClosedWindowError]; neither the
    reading of a redirect nor a failed exchange ever rejects with that
    class. *)
Theorem C4_closed_listener_settles_canceled st t forTokens s :
  tasks st !! t = Some (AwaitRedirection forTokens s) ->
  tasks (closeServer s st) !! t = Some (Settled (Rejected UserClosedWindowError))
  /\ (server st = Some s ->
      forall e, tasks (call clientGenerateAuthUrl e st) !! t = Some (Settled (Rejected UserClosedWindowError)))
  /\ (forall reached e, authorizationCode urlQuery reached = inl e ->
                        e ≠ UserClosedWindowError)
  /\ (forall m, Error_ m ≠ UserClosedWindowError)
  /\ (forall reason, ClientError reason ≠ UserClosedWindowError).
Proof.
  intros Ht. split; [apply (closeServer_cancels s st t forTokens Ht)|].
  split; [intros Hs e; apply (call_supersedes e st s t forTokens Hs Ht)|].
  split; [|split; discriminate].
  intros reached e He.
  destruct (authorizationCode_throws_Error urlQuery reached e He) as [m ->].
  discriminate.
Qed.

(** The resumption after a captured redirect, spelled out. *)
Lemma afterRedirection_eq st t forTokens s l reached :
  tasks st !! t = Some (AwaitRedirection forTokens s) ->
  sessions st !! s = Some l ->
  Listener.status l = Listener.Listening ->
  afterRedirection urlQuery t reached st
  = let st2 :=
      setServer None
        (setSessions (<[s := Listener.withStatus (Listener.Captured reached) l]>
                        (sessions st)) st) in
    match authorizationCode urlQuery reached with
    | inl e => Some (settle t (Rejected e) st2)
    | inr code =>
        let st3 :=
          if refocusAfterSuccess (options st2)
          then setRefocused (S (refocused st2)) st2 else st2 in
        if forTokens then
          let st4 := setExchanges (exchanges st3 ++ [code]) st3 in
          Some (setTasks (<[t := AwaitToken code]> (tasks st4)) st4)
        else Some (settle t (Fulfilled (VCode code)) st3)
    end.
Proof.
  intros Ht Hs Hl. unfold afterRedirection. rewrite Ht, Hs.
  unfold Listener.isListening. rewrite Hl.
  rewrite bool_decide_eq_true_2 by reflexivity. reflexivity.
Qed.




(** C8, as the code has it: when the listener of an attempt captures a
    redirect whose [error] parameter is not empty, the attempt is
    rejected with an [Error] whose message is the [error_description]
    value (empty when there is none); [getToken] is not called, nothing
    is published, the credentials stay, and no token reply can reach the
    attempt afterwards. *)
Theorem C8_denied_redirect st t forTokens s l reached (e : QueryValue) :
  tasks st !! t = Some (AwaitRedirection forTokens s) ->
  sessions st !! s = Some l ->
  Listener.status l = Listener.Listening ->
  urlQuery reached !! "error" = Some e ->
  truthy (Some e) = true ->
  exists st',
    step urlQuery clientGenerateAuthUrl (Redirected t reached) st = Some st'
    /\ tasks st' !! t
       = Some (Settled (Rejected (Error_ (from_option toString ""
                                           (urlQuery reached !! "error_description")))))
    /\ exchanges st' = exchanges st
    /\ published st' = published st
    /\ currentCredentials st' = currentCredentials st
    /\ (forall r, step urlQuery clientGenerateAuthUrl (TokenReply t r) st' = None).
Proof.
  intros Ht Hs Hl He Htr.
  pose proof (lookup_lt_Some _ _ _ Ht) as Hlt.
  cbn [step].
  rewrite (afterRedirection_eq st t forTokens s l reached Ht Hs Hl).
  rewrite (authorizationCode_denied urlQuery reached e He Htr).
  cbv zeta. eexists. split; [reflexivity|].
  assert (Hset : forall st0 : State, tasks (settle t (Rejected (Error_ (from_option toString ""
                   (urlQuery reached !! "error_description")))) st0)
                 = <[t := Settled (Rejected (Error_ (from_option toString ""
                   (urlQuery reached !! "error_description"))))]> (tasks st0))
    by reflexivity.
  split; [rewrite Hset; apply list_lookup_insert_eq; exact Hlt|].
  split; [reflexivity|]. split; [reflexivity|]. split; [reflexivity|].
  intros r. unfold afterToken. rewrite Hset.
  rewrite list_lookup_insert_eq by exact Hlt. reflexivity.
Qed.

End Attempts.

Example calendar_built : calendar = Some calendarState.
Proof. vm_compute. reflexivity. Qed.

Example awaitingRedirect_shape :
  tasks awaitingRedirect = [AwaitRedirection true 0]
  /\ sessions awaitingRedirect = [defaultListener]
  /\ server awaitingRedirect = Some 0
  /\ bound awaitingRedirect = [0].
Proof. vm_compute. repeat split. Qed.

Lemma C4_closed_listener_witness :
  tasks (closeServer 0 awaitingRedirect) !! 0
  = Some (Settled (Rejected UserClosedWindowError))
  /\ tasks (call googleAuthUrl (OpenAuthWindowAndGetTokens false) awaitingRedirect) !! 0
     = Some (Settled (Rejected UserClosedWindowError)).
Proof.
  pose proof (C4_closed_listener_settles_canceled Url.query googleAuthUrl
                awaitingRedirect 0 true 0 eq_refl) as (Hclose & Hcall & _).
  split; [exact Hclose|]. apply Hcall. reflexivity.
Defined.



(** C8 fails on the redirect of its own scenario: with [error] alone the
    attempt is rejected with an empty message, which does not contain the
    provider's [access_denied]. *)
Lemma C8_error_alone_rejects_with_empty_reason :
  exists st',
    step Url.query googleAuthUrl
      (Redirected 0 "http://127.0.0.1:42813/callback?error=access_denied")
      awaitingRedirect = Some st'
    /\ tasks st' !! 0 = Some (Settled (Rejected (Error_ "")))
    /\ includes "access_denied" (message (Error_ "")) = false.
Proof. eexists. vm_compute. repeat split. Qed.

Lemma C8_denied_redirect_witness :
  exists st',
    step Url.query googleAuthUrl
      (Redirected 0 "http://127.0.0.1:42813/callback?error=access_denied&error_description=User+denied")
      awaitingRedirect = Some st'
    /\ tasks st' !! 0 = Some (Settled (Rejected (Error_ "User denied")))
    /\ exchanges st' = exchanges awaitingRedirect
    /\ published st' = published awaitingRedirect
    /\ currentCredentials st' = currentCredentials awaitingRedirect
    /\ (forall r, step Url.query googleAuthUrl (TokenReply 0 r) st' = None).
Proof.
  apply (C8_denied_redirect Url.query googleAuthUrl awaitingRedirect 0 true 0
           defaultListener
           "http://127.0.0.1:42813/callback?error=access_denied&error_description=User+denied"
           (QStr "access_denied")).
  - reflexivity.
  - reflexivity.
  - reflexivity.
  - vm_compute. reflexivity.
  - reflexivity.
Defined.

(** ** One listener at a time *)

(** C1 fails when two calls overlap in the wait of line 122. With attempt 0
    waiting on listener 0, two further calls both find listener 0 in
    [this.server] and both stop at [await this.server.close()]; when the
    first resumes it constructs listener 1, and when the second resumes it
    drops that reference and constructs listener 2 while listener 1 is
    still bound. *)
Theorem C1_overlapping_calls_bind_two_listeners :
  exists st3 st5,
    run Url.query googleAuthUrl
      [Call (OpenAuthWindowAndGetAuthorizationCode "u0");
       Call (OpenAuthWindowAndGetAuthorizationCode "u1");
       Call (OpenAuthWindowAndGetAuthorizationCode "u2")] calendarState = Some st3
    /\ tasks st3 = [Settled (Rejected UserClosedWindowError);
                    AwaitClose false 0 "u1"; AwaitClose false 0 "u2"]
    /\ bound st3 = []
    /\ run Url.query googleAuthUrl [CloseDone 1; CloseDone 2] st3 = Some st5
    /\ tasks st5 = [Settled (Rejected UserClosedWindowError);
                    AwaitRedirection false 1; AwaitRedirection false 2]
    /\ server st5 = Some 2
    /\ bound st5 = [1; 2]
    /\ isBound st5 1 /\ isBound st5 2.
Proof.
  do 2 eexists.
  split; [vm_compute; reflexivity|].
  split; [reflexivity|]. split; [reflexivity|].
  split; [vm_compute; reflexivity|].
  split; [reflexivity|]. split; [reflexivity|]. split; [reflexivity|].
  split; eexists; (split; reflexivity).
Qed.

(** What the code does guarantee: as long as no call is made while another
    one is suspended at line 122, the bound listener is the one kept in
    [this.server], so there is at most one. *)

Lemma release_not_listening l :
  Listener.status (Listener.release l) ≠ Listener.Listening.
Proof.
  unfold Listener.release.
  destruct (Listener.status l) eqn:Hl; cbn; congruence.
Qed.

Lemma cancelWaiter_AwaitClose s x f s' u :
  cancelWaiter s x = AwaitClose f s' u -> x = AwaitClose f s' u.
Proof.
  destruct x; cbn; try congruence.
  destruct (decide _); congruence.
Qed.

Lemma insert_AwaitClose (ts : list Task) t x t' f s u :
  (forall f s u, x ≠ AwaitClose f s u) ->
  <[t := x]> ts !! t' = Some (AwaitClose f s u) ->
  t' ≠ t /\ ts !! t' = Some (AwaitClose f s u).
Proof.
  intros Hx H. apply list_lookup_insert_Some in H as [(_ & Hxy & _) | [Hne H]].
  - destruct (Hx _ _ _ Hxy).
  - split; [congruence | exact H].
Qed.

Lemma owned_unbound st :
  (forall i, ~ isBound st i) ->
  (forall t t' f s u f' s' u',
      tasks st !! t = Some (AwaitClose f s u) ->
      tasks st !! t' = Some (AwaitClose f' s' u') -> t = t') ->
  owned st.
Proof. intros Hnone Huniq. split; [intros i Hi; destruct (Hnone i Hi) | exact Huniq]. Qed.

Lemma owned_constructor id secret r opts (h : Heap) st :
  constructor id secret r opts h = Some st -> owned st.
Proof.
  unfold constructor. destruct (h !! r) as [a|]; [|discriminate]. intros [= <-].
  apply owned_unbound.
  - intros i (l & Hl & _). cbn in Hl. rewrite lookup_nil in Hl. discriminate.
  - intros t t' f s u f' s' u' Ht. cbn in Ht. rewrite lookup_nil in Ht. discriminate.
Qed.

(** Starting a listener in a state where nothing is bound and no close is
    awaited. *)
Lemma owned_startServer urlParam st ts :
  (forall i, ~ isBound st i) ->
  (forall t f s u, ts !! t = Some (AwaitClose f s u) -> False) ->
  owned (setTasks ts (snd (startServer urlParam st))).
Proof.
  intros Hnone Hts. split.
  - intros i (l & Hl & Hst). cbn in Hl.
    apply lookup_snoc_Some in Hl as [[_ Hl] | [-> _]].
    + destruct (Hnone i). exists l. split; assumption.
    + split; [reflexivity|]. intros (t & f & s & u & Ht). exact (Hts t f s u Ht).
  - intros t t' f s u f' s' u' Ht. destruct (Hts t f s u Ht).
Qed.

Lemma owned_openAuthPage forTokens urlParam st :
  owned st -> ~ closing st ->
  owned (openAuthPageAndGetAuthorizationCode forTokens urlParam st).
Proof.
  intros [Hown _] Hidle. unfold openAuthPageAndGetAuthorizationCode.
  destruct (server st) as [s|] eqn:Hs.
  - apply owned_unbound.
    + intros i (l & Hl & Hst). cbn in Hl.
      destruct (decide (s = i)) as [->|Hne].
      * rewrite list_lookup_alter_eq in Hl.
        destruct (sessions st !! i) as [l0|]; [|discriminate].
        injection Hl as <-. exact (release_not_listening l0 Hst).
      * rewrite list_lookup_alter_ne in Hl by exact Hne.
        destruct (Hown i) as [Hi _]; [exists l; split; assumption|]. congruence.
    + assert (Hnew : forall t f s0 u,
                 (tasks (closeServer s st) ++ [AwaitClose forTokens s urlParam]) !! t
                 = Some (AwaitClose f s0 u) -> t = length (tasks (closeServer s st))).
      { intros t f s0 u Ht. apply lookup_snoc_Some in Ht as [[_ Ht] | [-> _]]; [|reflexivity].
        rewrite closeServer_tasks, list_lookup_fmap in Ht.
        destruct (tasks st !! t) as [x|] eqn:Hx; [|discriminate].
        injection Ht as Ht. apply cancelWaiter_AwaitClose in Ht. subst x.
        destruct Hidle. exists t, f, s0, u. exact Hx. }
      intros t t' f s0 u f' s' u' Ht Ht'. cbn in Ht, Ht'.
      rewrite (Hnew _ _ _ _ Ht), (Hnew _ _ _ _ Ht'). reflexivity.
  - change (owned (setTasks (tasks (snd (startServer urlParam st))
                             ++ [AwaitRedirection forTokens (length (sessions st))])
                            (snd (startServer urlParam st)))).
    apply owned_startServer.
    + intros i Hi. destruct (Hown i Hi) as [Hi' _]. congruence.
    + intros t f s u Ht. cbn in Ht.
      apply lookup_snoc_Some in Ht as [[_ Ht] | [_ Ht]]; [|discriminate].
      destruct Hidle. exists t, f, s, u. exact Ht.
Qed.

Section Serial.

Variable urlQuery : string -> gmap string QueryValue.
Variable clientGenerateAuthUrl : OAuth2Client -> GenerateAuthUrlOpts -> string.

Lemma owned_call e st :
  owned st -> ~ closing st -> owned (call clientGenerateAuthUrl e st).
Proof. intros Hown Hidle. destruct e; cbn [call]; apply owned_openAuthPage; assumption. Qed.

Lemma owned_afterClose t st st' :
  owned st -> afterClose t st = Some st' -> owned st'.
Proof.
  intros [Hown Huniq]. unfold afterClose.
  destruct (tasks st !! t) as [[f s u| | |]|] eqn:Ht; try discriminate.
  intros [= <-].
  assert (Hclosing : closing st) by (exists t, f, s, u; exact Ht).
  assert (Hrest : forall t' f' s' u',
             <[t := AwaitRedirection f (length (sessions st))]> (tasks st) !! t'
             = Some (AwaitClose f' s' u') -> False).
  { intros t' f' s' u' Ht'.
    apply insert_AwaitClose in Ht' as [Hne Ht']; [|discriminate].
    apply Hne. exact (Huniq _ _ _ _ _ _ _ _ Ht' Ht). }
  apply (owned_startServer u (setServer None st)).
  - intros i Hi. destruct (Hown i Hi) as [_ Hidle]. exact (Hidle Hclosing).
  - exact Hrest.
Qed.

Local Ltac shape_done :=
  repeat (split; [first [reflexivity | assumption]|]); intros; discriminate.

(** What a resumption after a redirect leaves behind, whichever way the
    reading of the redirect goes. *)
Lemma afterRedirection_shape t reached st st' :
  afterRedirection urlQuery t reached st = Some st' ->
  exists f s l x,
    tasks st !! t = Some (AwaitRedirection f s)
    /\ sessions st !! s = Some l
    /\ Listener.status l = Listener.Listening
    /\ sessions st' = <[s := Listener.withStatus (Listener.Captured reached) l]> (sessions st)
    /\ server st' = None
    /\ tasks st' = <[t := x]> (tasks st)
    /\ (forall f' s' u', x ≠ AwaitClose f' s' u').
Proof.
  unfold afterRedirection.
  destruct (tasks st !! t) as [[| f s | |]|] eqn:Ht; try discriminate.
  destruct (sessions st !! s) as [l|] eqn:Hs; [|discriminate].
  unfold Listener.isListening. case_bool_decide as Hl; [|discriminate].
  destruct (authorizationCode urlQuery reached) as [e|code].
  - intros [= <-]. exists f, s, l, (Settled (Rejected e)). shape_done.
  - cbv zeta. destruct f.
    + intros [= <-]. exists true, s, l, (AwaitToken code).
      cbn. destruct (refocusAfterSuccess (options st)); shape_done.
    + intros [= <-]. exists false, s, l, (Settled (Fulfilled (VCode code))).
      cbn. destruct (refocusAfterSuccess (options st)); shape_done.
Qed.

Lemma owned_afterRedirection t reached st st' :
  owned st -> afterRedirection urlQuery t reached st = Some st' -> owned st'.
Proof.
  intros [Hown Huniq] Hstep.
  destruct (afterRedirection_shape t reached st st' Hstep)
    as (f & s & l & x & Ht & Hs & Hl & Hsess & Hserver & Htasks & Hx).
  destruct (Hown s) as [Hsrv Hidle]; [exists l; split; assumption|].
  apply owned_unbound.
  - intros i (l' & Hl' & Hst'). rewrite Hsess in Hl'.
    apply list_lookup_insert_Some in Hl' as [(_ & <- & _) | [Hne Hl']].
    + discriminate.
    + destruct (Hown i) as [Hi _]; [exists l'; split; assumption|]. congruence.
  - intros t1 t2 f1 s1 u1 f2 s2 u2 H1 _. rewrite Htasks in H1.
    apply insert_AwaitClose in H1 as [_ H1]; [|exact Hx].
    destruct Hidle. exists t1, f1, s1, u1. exact H1.
Qed.

Lemma owned_afterToken t r st st' :
  owned st -> afterToken t r st = Some st' -> owned st'.
Proof.
  intros [Hown Huniq]. unfold afterToken.
  destruct (tasks st !! t) as [[| |code|]|] eqn:Ht; try discriminate.
  set (st1 := foldl (fun s tokens => onClientTokens tokens s) st (emitted r)).
  assert (Hsame : sessions st1 = sessions st /\ server st1 = server st /\ tasks st1 = tasks st).
  { subst st1. induction (emitted r) as [|c cs IH] using rev_ind; [repeat split|].
    rewrite foldl_app. cbn. exact IH. }
  destruct Hsame as (Hsess & Hsrv & Htasks).
  assert (Hsettle : forall st2 q,
             sessions st2 = sessions st -> server st2 = server st -> tasks st2 = tasks st ->
             owned (settle t q st2)).
  { intros st2 q H1 H2 H3. split.
    - intros i (l & Hl & Hst). cbn in Hl. rewrite H1 in Hl.
      destruct (Hown i) as [Hi Hidle]; [exists l; split; assumption|].
      split; [cbn; congruence|].
      intros (t' & f & s & u & Ht'). cbn in Ht'. rewrite H3 in Ht'.
      apply insert_AwaitClose in Ht' as [_ Ht']; [|discriminate].
      apply Hidle. exists t', f, s, u. exact Ht'.
    - intros t1 t2 f1 s1 u1 f2 s2 u2 Ht1 Ht2. cbn in Ht1, Ht2. rewrite H3 in Ht1, Ht2.
      apply insert_AwaitClose in Ht1 as [_ Ht1]; [|discriminate].
      apply insert_AwaitClose in Ht2 as [_ Ht2]; [|discriminate].
      exact (Huniq _ _ _ _ _ _ _ _ Ht1 Ht2). }
  destruct (outcome r) as [reason|tokens]; intros [= <-].
  - apply Hsettle; assumption.
  - apply Hsettle; cbn; assumption.
Qed.

Lemma owned_step ev st st' :
  owned st -> serial ev st ->
  step urlQuery clientGenerateAuthUrl ev st = Some st' -> owned st'.
Proof.
  intros Hown Hser. destruct ev as [e|t|t reached|t r|tokens|tokens]; cbn [step].
  - intros [= <-]. apply owned_call; assumption.
  - apply owned_afterClose. exact Hown.
  - apply owned_afterRedirection. exact Hown.
  - apply owned_afterToken. exact Hown.
  - intros [= <-]. exact Hown.
  - intros [= <-]. exact Hown.
Qed.

Lemma owned_serialRun evs : forall st st',
  owned st -> serialRun urlQuery clientGenerateAuthUrl evs st st' -> owned st'.
Proof.
  induction evs as [|ev rest IH]; intros st st' Hown Hrun; cbn in Hrun.
  - subst st'. exact Hown.
  - destruct Hrun as (Hser & st1 & Hstep & Hrest).
    apply (IH st1 st'); [|exact Hrest].
    exact (owned_step ev st st1 Hown Hser Hstep).
Qed.

(** X15: along every serial run from a freshly constructed coordinator, two
    bound sessions are the same session. *)
Theorem serial_runs_bind_at_most_one id secret r opts (h : Heap) st0 evs st :
  constructor id secret r opts h = Some st0 ->
  serialRun urlQuery clientGenerateAuthUrl evs st0 st ->
  forall i j, isBound st i -> isBound st j -> i = j.
Proof.
  intros Hc Hrun i j Hi Hj.
  pose proof (owned_serialRun evs st0 st (owned_constructor _ _ _ _ _ _ Hc) Hrun) as [Hown _].
  destruct (Hown i Hi) as [Hsi _]. destruct (Hown j Hj) as [Hsj _]. congruence.
Qed.

End Serial.

(** [bound] lists exactly the sessions that hold the port. *)
Lemma bound_spec st i : i ∈ bound st <-> isBound st i.
Proof.
  unfold bound, isBound. rewrite list_elem_of_filter, elem_of_seq.
  split.
  - intros [Hb _]. destruct (sessions st !! i) as [l|]; [|discriminate].
    exists l. split; [reflexivity|].
    cbn in Hb. unfold Listener.isListening in Hb. apply bool_decide_eq_true in Hb. exact Hb.
  - intros (l & Hl & Hst). rewrite Hl. cbn. split.
    + unfold Listener.isListening. apply bool_decide_eq_true. exact Hst.
    + apply lookup_lt_Some in Hl. lia.
Qed.

(** A supersession without overlap: the second call closes listener 0, and
    only after that close has returned is listener 1 constructed. *)
Example serial_supersession :
  exists st,
    serialRun Url.query googleAuthUrl
      [Call (OpenAuthWindowAndGetAuthorizationCode "u0");
       Call (OpenAuthWindowAndGetAuthorizationCode "u1");
       CloseDone 1] calendarState st
    /\ bound st = [1]
    /\ tasks st = [Settled (Rejected UserClosedWindowError); AwaitRedirection false 1].
Proof.
  eexists. split; [|split].
  - cbn [serialRun serial]. split.
    { intros (t & f & s & u & Ht). destruct t; discriminate. }
    eexists. split; [reflexivity|]. split.
    { intros (t & f & s & u & Ht). destruct t as [|[|]]; discriminate. }
    eexists. split; [reflexivity|]. split; [exact I|].
    eexists. split; [vm_compute; reflexivity | reflexivity].
  - vm_compute. reflexivity.
  - vm_compute. reflexivity.
Qed.

Section Settled.

Variable urlQuery : string -> gmap string QueryValue.
Variable clientGenerateAuthUrl : OAuth2Client -> GenerateAuthUrlOpts -> string.

Lemma openAuthPage_keeps_settled forTokens urlParam st t r :
  tasks st !! t = Some (Settled r) ->
  tasks (openAuthPageAndGetAuthorizationCode forTokens urlParam st) !! t = Some (Settled r).
Proof.
  intros Ht. unfold openAuthPageAndGetAuthorizationCode.
  destruct (server st) as [s|]; cbn [tasks setTasks startServer setOpened setServer setSessions];
    apply lookup_app_l_Some.
  - rewrite closeServer_tasks, list_lookup_fmap, Ht. reflexivity.
  - exact Ht.
Qed.

(** A settled promise stays as it is: no event settles an attempt twice. *)
Lemma settled_final ev st st' t r :
  tasks st !! t = Some (Settled r) ->
  step urlQuery clientGenerateAuthUrl ev st = Some st' ->
  tasks st' !! t = Some (Settled r).
Proof.
  intros Ht. destruct ev as [e|t0|t0 reached|t0 reply|tokens|tokens]; cbn [step].
  - intros [= <-]. destruct e; cbn [call]; apply openAuthPage_keeps_settled; exact Ht.
  - unfold afterClose.
    destruct (tasks st !! t0) as [[f s u| | |]|] eqn:Ht0; try discriminate.
    intros [= <-]. cbn. rewrite list_lookup_insert_ne by congruence. exact Ht.
  - intros Hstep.
    destruct (afterRedirection_shape urlQuery t0 reached st st' Hstep)
      as (f & s & l & x & Ht0 & _ & _ & _ & _ & Htasks & _).
    rewrite Htasks, list_lookup_insert_ne by congruence. exact Ht.
  - unfold afterToken.
    destruct (tasks st !! t0) as [[| |code|]|] eqn:Ht0; try discriminate.
    assert (Hsame : tasks (foldl (fun s tokens => onClientTokens tokens s) st (emitted reply))
                    = tasks st).
    { induction (emitted reply) as [|c cs IH] using rev_ind; [reflexivity|].
      rewrite foldl_app. cbn. exact IH. }
    destruct (outcome reply); intros [= <-]; cbn; rewrite Hsame;
      rewrite list_lookup_insert_ne by congruence; exact Ht.
  - intros [= <-]. exact Ht.
  - intros [= <-]. exact Ht.
Qed.

End Settled.

(** * Further properties of the class *)

(** ** The scopes array *)

Lemma pushIfMissing_present x r (h : Heap) a :
  h !! r = Some a -> x ∈ a -> pushIfMissing x r h = h.
Proof.
  intros Hr Hx. unfold pushIfMissing. rewrite Hr.
  apply arrayIncludes_true in Hx. rewrite Hx. reflexivity.
Qed.

Lemma constructor_defined id secret r opts (h : Heap) st :
  constructor id secret r opts h = Some st -> exists a, h !! r = Some a.
Proof.
  unfold constructor. destruct (h !! r) as [a|]; [eauto | discriminate].
Qed.

(** X1: an array that went through the constructor once is left alone by
    every later construction over it, whatever the other arguments: lines
    65-66 push nothing the second time. *)
Theorem constructor_again_keeps_array id secret r opts (h : Heap) st id2 secret2 opts2 :
  constructor id secret r opts h = Some st ->
  exists st2,
    constructor id2 secret2 r opts2 (heap st) = Some st2
    /\ heap st2 = heap st
    /\ scopes st2 = scopes st.
Proof.
  intros Hc.
  destruct (constructor_defined _ _ _ _ _ _ Hc) as [a Ha].
  destruct (constructor_heap id secret r opts h a Ha) as (st' & Hc' & Hs & Hh & _).
  rewrite Hc in Hc'. injection Hc' as <-.
  destruct (missingScopes_complete a) as [Hp He].
  unfold constructor at 1. rewrite Hh.
  eexists. split; [reflexivity|]. cbn [heap scopes]. split; [|symmetry; exact Hs].
  rewrite (pushIfMissing_present "profile" r (heap st) _ Hh Hp).
  apply (pushIfMissing_present "email" r (heap st) _ Hh He).
Qed.

Lemma constructor_again_keeps_array_witness :
  exists st2,
    constructor "other-id" "other-secret" 0 None (heap calendarState) = Some st2
    /\ heap st2 = heap calendarState
    /\ scopes st2 = scopes calendarState.
Proof.
  apply (constructor_again_keeps_array "client-id" "client-secret" 0 None calendarHeap).
  vm_compute. reflexivity.
Defined.

Lemma missingScopes_NoDup (a : list string) : NoDup (missingScopes a).
Proof.
  unfold missingScopes.
  destruct (arrayIncludes "profile" a), (arrayIncludes "email" a); cbn [app];
    repeat (apply NoDup_cons; split); try apply NoDup_nil_2;
    try apply not_elem_of_nil.
  intros H. apply list_elem_of_singleton in H. discriminate.
Qed.

(** X2: the constructor never makes an entry appear twice: if the caller's
    array has no repeated entry, neither has the array after
    construction. *)
Theorem constructor_keeps_NoDup id secret r opts (h : Heap) a :
  h !! r = Some a ->
  NoDup a ->
  exists st n,
    constructor id secret r opts h = Some st
    /\ heap st !! scopes st = Some n
    /\ NoDup n
    /\ length n <= length a + 2.
Proof.
  intros Hr Hnd.
  destruct (constructor_heap id secret r opts h a Hr) as (st & Hc & Hs & Hh & _).
  exists st, (a ++ missingScopes a).
  split; [exact Hc|]. split; [rewrite Hs; exact Hh|]. split.
  - apply NoDup_app. split; [exact Hnd|]. split; [|apply missingScopes_NoDup].
    intros x Hx Hm. exact (proj1 (missingScopes_elem a x Hm) Hx).
  - rewrite length_app. unfold missingScopes.
    destruct (arrayIncludes "profile" a), (arrayIncludes "email" a); cbn; lia.
Qed.

Lemma constructor_keeps_NoDup_witness :
  exists st n,
    constructor "client-id" "client-secret" 0 None {[ 0 := ["email"; "calendar"] ]} = Some st
    /\ heap st !! scopes st = Some n
    /\ NoDup n
    /\ length n <= length ["email"; "calendar"] + 2.
Proof.
  apply (constructor_keeps_NoDup "client-id" "client-secret" 0 None
           {[ 0 := ["email"; "calendar"] ]} ["email"; "calendar"]).
  - reflexivity.
  - apply (bool_decide_unpack _). vm_compute. exact I.
Defined.

Section FirstRequest.

Variable clientGenerateAuthUrl : OAuth2Client -> GenerateAuthUrlOpts -> string.

(** X3: the request a fresh coordinator makes to the client asks for
    offline access, for the caller's scopes followed by the missing ones,
    and for the loopback URI on the configured port, which is also the
    redirect URI the client was constructed with. *)
Theorem first_request_after_construction id secret r opts (h : Heap) a :
  h !! r = Some a ->
  exists st,
    constructor id secret r opts h = Some st
    /\ baseAuthUrl clientGenerateAuthUrl st
       = clientGenerateAuthUrl
           (Client.new id secret
              (loopbackUri (loopbackInterfaceRedirectionPort (mergeOptions opts))))
           {| access_type := "offline";
              scope := a ++ missingScopes a;
              redirect_uri :=
                loopbackUri (loopbackInterfaceRedirectionPort (mergeOptions opts)) |}
    /\ redirectUri (oauth2Client st)
       = loopbackUri (loopbackInterfaceRedirectionPort (mergeOptions opts)).
Proof.
  intros Hr.
  destruct (constructor_heap id secret r opts h a Hr) as (st & Hc & Hs & Hh & _).
  exists st. split; [exact Hc|].
  unfold baseAuthUrl. rewrite Hs, Hh.
  unfold constructor in Hc. rewrite Hr in Hc. injection Hc as <-.
  split; reflexivity.
Qed.

End FirstRequest.

Lemma first_request_after_construction_witness :
  exists st,
    constructor "client-id" "client-secret" 0
      (Some {| successRedirectURL' := None;
               loopbackInterfaceRedirectionPort' := Some 8080%N;
               refocusAfterSuccess' := None |}) calendarHeap = Some st
    /\ baseAuthUrl googleAuthUrl st
       = "https://accounts.google.com/o/oauth2/v2/auth?access_type=offline&scope=calendar%20profile%20email&redirect_uri=http%3A%2F%2F127.0.0.1%3A8080%2Fcallback&response_type=code&client_id=client-id"
    /\ redirectUri (oauth2Client st) = "http://127.0.0.1:8080/callback".
Proof.
  destruct (first_request_after_construction googleAuthUrl "client-id" "client-secret" 0
              (Some {| successRedirectURL' := None;
                       loopbackInterfaceRedirectionPort' := Some 8080%N;
                       refocusAfterSuccess' := None |}) calendarHeap ["calendar"] eq_refl)
    as (st & Hc & Hu & Hr).
  exists st. split; [exact Hc|]. split; [rewrite Hu; vm_compute; reflexivity | exact Hr].
Defined.

(** ** The forced account chooser *)

Lemma allChars_app p a b : allChars p (a +:+ b) = allChars p a && allChars p b.
Proof.
  induction a as [|c a IH]; [reflexivity|].
  change (allChars p (String c a +:+ b)) with (p c && allChars p (a +:+ b)).
  rewrite IH. apply andb_assoc.
Qed.

Lemma allChars_at p a c b :
  allChars p (a +:+ String c b) = allChars p a && (p c && allChars p b).
Proof. rewrite allChars_app. reflexivity. Qed.

Lemma allChars_impl (p q : ascii -> bool) s :
  (forall c, p c = true -> q c = true) -> allChars p s = true -> allChars q s = true.
Proof.
  intros Hpq. induction s as [|c r IH]; [reflexivity|].
  cbn [allChars]. intros H. apply andb_true_iff in H as [Hc Hr].
  rewrite (Hpq c Hc), (IH Hr). reflexivity.
Qed.

Lemma hexDigit_safe c :
  Querystring.noEscape (Querystring.hexDigit (Querystring.code c / 16)) = true
  /\ Querystring.noEscape (Querystring.hexDigit (Querystring.code c mod 16)) = true.
Proof.
  destruct c as [[] [] [] [] [] [] [] []]; split; vm_compute; reflexivity.
Qed.

(** An escaped component consists of unreserved characters and percent
    signs only. *)
Lemma escape_urlSafe s : allChars urlSafe (Querystring.escape s) = true.
Proof.
  induction s as [|c r IH]; [reflexivity|].
  cbn [Querystring.escape]. destruct (Querystring.noEscape c) eqn:Hc.
  - cbn [allChars]. unfold urlSafe at 1. rewrite Hc, IH. reflexivity.
  - destruct (hexDigit_safe c) as [Hh Hl].
    change (Querystring.hexTable c +:+ Querystring.escape r)
      with (String "%" (String (Querystring.hexDigit (Querystring.code c / 16))
              (String (Querystring.hexDigit (Querystring.code c mod 16))
                 (Querystring.escape r)))).
    cbn [allChars]. unfold urlSafe at 2 3. rewrite Hh, Hl, IH. reflexivity.
Qed.

Lemma urlSafe_not c d :
  urlSafe d = false -> urlSafe c = true -> negb (Ascii.eqb c d) = true.
Proof.
  intros Hd Hc. destruct (Ascii.eqb c d) eqn:Heq; [|reflexivity].
  apply Ascii.eqb_eq in Heq. subst d. congruence.
Qed.

Lemma escape_without d s :
  urlSafe d = false ->
  allChars (fun c => negb (Ascii.eqb c d)) (Querystring.escape s) = true.
Proof.
  intros Hd. apply (allChars_impl urlSafe); [|apply escape_urlSafe].
  intros c. apply (urlSafe_not c d Hd).
Qed.

Lemma cut_absent sep s :
  allChars (fun c => negb (Ascii.eqb c sep)) s = true -> Querystring.cut sep s = (s, None).
Proof.
  induction s as [|c r IH]; [reflexivity|].
  cbn [allChars Querystring.cut]. intros H. apply andb_true_iff in H as [Hc Hr].
  apply negb_true_iff in Hc. rewrite Hc, (IH Hr). reflexivity.
Qed.

Lemma cut_at sep p t :
  allChars (fun c => negb (Ascii.eqb c sep)) p = true ->
  Querystring.cut sep (p +:+ String sep t) = (p, Some t).
Proof.
  induction p as [|c r IH].
  - intros _. change ("" +:+ String sep t) with (String sep t).
    cbn [Querystring.cut]. rewrite Ascii.eqb_refl. reflexivity.
  - change (String c r +:+ String sep t) with (String c (r +:+ String sep t)).
    cbn [allChars Querystring.cut]. intros H.
    apply andb_true_iff in H as [Hc Hr].
    apply negb_true_iff in Hc. rewrite Hc, (IH Hr). reflexivity.
Qed.

Lemma split_absent sep s :
  allChars (fun c => negb (Ascii.eqb c sep)) s = true -> Querystring.split sep s = [s].
Proof.
  induction s as [|c r IH]; [reflexivity|].
  cbn [allChars Querystring.split]. intros H. apply andb_true_iff in H as [Hc Hr].
  apply negb_true_iff in Hc. rewrite Hc, (IH Hr). reflexivity.
Qed.

Lemma noEscape_not_plus c :
  Querystring.noEscape c = true -> Ascii.eqb c "+" = false.
Proof.
  destruct c as [[] [] [] [] [] [] [] []]; vm_compute; congruence.
Qed.

(** Decoding as a query component undoes [escape] as well. *)
Lemma unescape_query_escape s :
  Querystring.unescape true (Querystring.escape s) = s.
Proof.
  induction s as [|c r IH]; [reflexivity|].
  cbn [Querystring.escape].
  destruct (Querystring.noEscape c) eqn:Hc.
  - cbn [Querystring.unescape].
    rewrite (noEscape_plain c Hc), (noEscape_not_plus c Hc).
    cbn [andb]. rewrite IH. reflexivity.
  - destruct (hex_roundtrip c) as [Hh Hl].
    change (Querystring.hexTable c +:+ Querystring.escape r)
      with (String "%" (String (Querystring.hexDigit (Querystring.code c / 16))
              (String (Querystring.hexDigit (Querystring.code c mod 16))
                 (Querystring.escape r)))).
    rewrite (unescape_percent true _ _ _ _ _ Hh Hl), IH, ascii_of_code.
    reflexivity.
Qed.

Section AddSession.

Variable clientGenerateAuthUrl : OAuth2Client -> GenerateAuthUrlOpts -> string.

(** X4: whatever base URL the client generates, the AddSession URL of
    lines 91-94 carries it whole: read back as a URL, its query has the
    single parameter [continue], whose value is the base URL. *)
Theorem addSession_query_is_continue (st : State) :
  Url.query (generateAuthUrl clientGenerateAuthUrl true st)
  = {[ "continue" := QStr (baseAuthUrl clientGenerateAuthUrl st) ]}.
Proof.
  unfold generateAuthUrl. cbv zeta.
  set (base := baseAuthUrl clientGenerateAuthUrl st).
  set (E := Querystring.escape base).
  change ("https://accounts.google.com/AddSession?" +:+ Querystring.stringify [("continue", base)])
    with ("https://accounts.google.com/AddSession" +:+ String "?" ("continue" +:+ String "=" E)).
  unfold Url.query.
  rewrite (cut_absent "#").
  2:{ subst E. rewrite !allChars_at, escape_without by reflexivity.
      vm_compute. reflexivity. }
  cbn [fst]. rewrite cut_at by (vm_compute; reflexivity). cbn [snd].
  unfold Querystring.parse. rewrite split_absent.
  2:{ subst E. rewrite !allChars_at, escape_without by reflexivity.
      vm_compute. reflexivity. }
  cbn [foldl]. unfold Querystring.parsePair.
  change (String.eqb ("continue" +:+ String "=" E) "") with false. cbv iota.
  rewrite cut_at by (vm_compute; reflexivity).
  change (default "" (Some E)) with E. subst E. rewrite unescape_query_escape.
  change (Querystring.unescape true "continue") with "continue".
  unfold Querystring.addPair. rewrite lookup_empty. apply insert_empty.
Qed.

End AddSession.

(** ** What each resumption touches *)

Lemma call_openAuthPage gen e st :
  call gen e st
  = openAuthPageAndGetAuthorizationCode (entryForTokens e) (entryUrl gen e st) st.
Proof. destruct e; reflexivity. Qed.

Section Resumptions.

Variable urlQuery : string -> gmap string QueryValue.
Variable clientGenerateAuthUrl : OAuth2Client -> GenerateAuthUrlOpts -> string.

(** The parts of the state a resumption after a redirect leaves alone. *)
Lemma afterRedirection_frame t reached st st' :
  afterRedirection urlQuery t reached st = Some st' ->
  heap st' = heap st /\ scopes st' = scopes st /\ options st' = options st
  /\ oauth2Client st' = oauth2Client st
  /\ published st' = published st /\ opened st' = opened st
  /\ length (sessions st') = length (sessions st).
Proof.
  unfold afterRedirection.
  destruct (tasks st !! t) as [[| f s | |]|]; try discriminate.
  destruct (sessions st !! s) as [l|]; [|discriminate].
  destruct (Listener.isListening l); [|discriminate].
  destruct (authorizationCode urlQuery reached) as [e|code].
  - intros [= <-]. cbn. rewrite length_insert. repeat split.
  - cbv zeta. destruct f, (refocusAfterSuccess (options _)) eqn:Hr;
      intros [= <-]; cbn; rewrite length_insert; repeat split.
Qed.

(** X5: the pass over the visible windows (lines 145-149) is made once,
    when a redirect is read successfully and [refocusAfterSuccess] is on;
    a denied or malformed redirect, and every other event, makes none. *)
Theorem refocus_only_after_code ev st st' :
  step urlQuery clientGenerateAuthUrl ev st = Some st' ->
  refocused st'
  = match ev with
    | Redirected _ reached =>
        match authorizationCode urlQuery reached with
        | inr _ => if refocusAfterSuccess (options st)
                   then S (refocused st) else refocused st
        | inl _ => refocused st
        end
    | _ => refocused st
    end.
Proof.
  destruct ev as [e|t|t reached|t r|tokens|tokens]; cbn [step].
  - intros [= <-]. rewrite call_openAuthPage.
    unfold openAuthPageAndGetAuthorizationCode. destruct (server st); reflexivity.
  - unfold afterClose.
    destruct (tasks st !! t) as [[f s u| | |]|]; try discriminate.
    intros [= <-]. reflexivity.
  - unfold afterRedirection.
    destruct (tasks st !! t) as [[| f s | |]|]; try discriminate.
    destruct (sessions st !! s) as [l|]; [|discriminate].
    destruct (Listener.isListening l); [|discriminate].
    destruct (authorizationCode urlQuery reached) as [e|code].
    + intros [= <-]. reflexivity.
    + cbv zeta. cbn [options setServer setSessions].
      destruct f, (refocusAfterSuccess (options st)); intros [= <-]; reflexivity.
  - unfold afterToken.
    destruct (tasks st !! t) as [[| |code|]|]; try discriminate.
    destruct (onClientTokens_fold (emitted r) st) as (_ & _ & _ & _ & _ & Hr & _).
    destruct (outcome r); intros [= <-]; cbn; exact Hr.
  - intros [= <-]. reflexivity.
  - intros [= <-]. reflexivity.
Qed.

(** X6: an attempt started through [getAuthorizationCode] or
    [openAuthWindowAndGetAuthorizationCode] ends at the redirect: its
    promise is fulfilled with the code, [getToken] is not called, nothing
    is published, the credentials stay, and no token reply can reach it. *)
Theorem code_attempt_stops_at_redirect st t s l reached code :
  tasks st !! t = Some (AwaitRedirection false s) ->
  sessions st !! s = Some l ->
  Listener.status l = Listener.Listening ->
  authorizationCode urlQuery reached = inr code ->
  exists st',
    step urlQuery clientGenerateAuthUrl (Redirected t reached) st = Some st'
    /\ tasks st' !! t = Some (Settled (Fulfilled (VCode code)))
    /\ exchanges st' = exchanges st
    /\ published st' = published st
    /\ currentCredentials st' = currentCredentials st
    /\ server st' = None
    /\ (forall r, step urlQuery clientGenerateAuthUrl (TokenReply t r) st' = None).
Proof.
  intros Ht Hs Hl Hcode.
  pose proof (lookup_lt_Some _ _ _ Ht) as Hlt.
  cbn [step]. rewrite (afterRedirection_eq urlQuery st t false s l reached Ht Hs Hl), Hcode.
  cbv zeta. eexists. split; [reflexivity|].
  assert (Hlook : forall st0, tasks st0 = tasks st ->
            tasks (settle t (Fulfilled (VCode code)) st0) !! t
            = Some (Settled (Fulfilled (VCode code)))).
  { intros st0 H0. cbn. rewrite H0. apply list_lookup_insert_eq. exact Hlt. }
  cbn [options setServer setSessions].
  destruct (refocusAfterSuccess (options st));
    (split; [apply Hlook; reflexivity|]);
    (do 4 (split; [reflexivity|]));
    intros r; unfold afterToken; rewrite Hlook by reflexivity; reflexivity.
Qed.

(** X7: whatever the reading of the redirect throws, the attempt's promise
    is rejected with exactly that exception, be the attempt for a code or
    for tokens; [getToken] is not called, no window is refocused, nothing
    is published, the credentials stay, and [this.server] is cleared. *)
Theorem redirect_error_rejects_attempt st t forTokens s l reached e :
  tasks st !! t = Some (AwaitRedirection forTokens s) ->
  sessions st !! s = Some l ->
  Listener.status l = Listener.Listening ->
  authorizationCode urlQuery reached = inl e ->
  exists st',
    step urlQuery clientGenerateAuthUrl (Redirected t reached) st = Some st'
    /\ tasks st' !! t = Some (Settled (Rejected e))
    /\ exchanges st' = exchanges st
    /\ refocused st' = refocused st
    /\ published st' = published st
    /\ currentCredentials st' = currentCredentials st
    /\ server st' = None.
Proof.
  intros Ht Hs Hl He.
  pose proof (lookup_lt_Some _ _ _ Ht) as Hlt.
  cbn [step]. rewrite (afterRedirection_eq urlQuery st t forTokens s l reached Ht Hs Hl), He.
  cbv zeta. eexists. split; [reflexivity|].
  split; [cbn; apply list_lookup_insert_eq; exact Hlt|].
  repeat split.
Qed.

(** X8: when the exchange fails, the attempt's promise is rejected with the
    client's rejection, the stored credentials are not touched, and the
    only events published are those the client fired meanwhile. *)
Theorem exchange_failure_keeps_credentials st t code (es : list Credentials) reason :
  tasks st !! t = Some (AwaitToken code) ->
  exists st',
    step urlQuery clientGenerateAuthUrl
      (TokenReply t {| emitted := es; outcome := inl reason |}) st = Some st'
    /\ tasks st' !! t = Some (Settled (Rejected (ClientError reason)))
    /\ currentCredentials st' = currentCredentials st
    /\ published st' = published st ++ es
    /\ server st' = server st
    /\ sessions st' = sessions st.
Proof.
  intros Ht. pose proof (lookup_lt_Some _ _ _ Ht) as Hlt.
  cbn [step]. unfold afterToken. rewrite Ht. cbn [emitted outcome].
  destruct (onClientTokens_fold es st) as (Hp & Hc & Hts & Hss & Hsv & _).
  eexists. split; [reflexivity|]. cbn.
  rewrite Hts. split; [apply list_lookup_insert_eq; exact Hlt|].
  unfold currentCredentials in *. cbn. rewrite Hc, Hp, Hsv, Hss. repeat split.
Qed.

End Resumptions.

Lemma refocus_only_after_code_witness :
  exists st',
    step Url.query googleAuthUrl
      (Redirected 0 "http://127.0.0.1:42813/callback?code=XYZ") awaitingRedirect = Some st'
    /\ refocused st' = 1.
Proof.
  destruct (step Url.query googleAuthUrl
              (Redirected 0 "http://127.0.0.1:42813/callback?code=XYZ") awaitingRedirect)
    as [st'|] eqn:Hstep; [|vm_compute in Hstep; discriminate].
  exists st'. split; [reflexivity|].
  rewrite (refocus_only_after_code Url.query googleAuthUrl _ _ _ Hstep).
  vm_compute. reflexivity.
Defined.

Lemma code_attempt_stops_at_redirect_witness :
  exists st',
    step Url.query googleAuthUrl (Redirected 0 "http://127.0.0.1:42813/callback?code=XYZ")
      (call googleAuthUrl (GetAuthorizationCode false) calendarState) = Some st'
    /\ tasks st' !! 0 = Some (Settled (Fulfilled (VCode (QStr "XYZ"))))
    /\ exchanges st' = []
    /\ published st' = []
    /\ currentCredentials st' = noCredentials
    /\ server st' = None
    /\ (forall r, step Url.query googleAuthUrl (TokenReply 0 r) st' = None).
Proof.
  apply (code_attempt_stops_at_redirect Url.query googleAuthUrl
           (call googleAuthUrl (GetAuthorizationCode false) calendarState) 0 0
           defaultListener "http://127.0.0.1:42813/callback?code=XYZ" (QStr "XYZ")).
  - reflexivity.
  - reflexivity.
  - reflexivity.
  - vm_compute. reflexivity.
Defined.

Lemma redirect_error_rejects_attempt_witness :
  exists st',
    step Url.query googleAuthUrl (Redirected 0 "http://127.0.0.1:42813/callback")
      awaitingRedirect = Some st'
    /\ tasks st' !! 0 = Some (Settled (Rejected (Error_ "Unknown")))
    /\ exchanges st' = exchanges awaitingRedirect
    /\ refocused st' = refocused awaitingRedirect
    /\ published st' = published awaitingRedirect
    /\ currentCredentials st' = currentCredentials awaitingRedirect
    /\ server st' = None.
Proof.
  apply (redirect_error_rejects_attempt Url.query googleAuthUrl awaitingRedirect 0 true 0
           defaultListener "http://127.0.0.1:42813/callback" (Error_ "Unknown")).
  - reflexivity.
  - reflexivity.
  - reflexivity.
  - vm_compute. reflexivity.
Defined.

Example awaitingToken_shape :
  tasks awaitingToken = [AwaitToken (QStr "XYZ")]
  /\ exchanges awaitingToken = [QStr "XYZ"]
  /\ server awaitingToken = None
  /\ bound awaitingToken = [].
Proof. vm_compute. repeat split. Qed.

Lemma exchange_failure_keeps_credentials_witness :
  exists st',
    step Url.query googleAuthUrl
      (TokenReply 0 {| emitted := []; outcome := inl "invalid_grant" |}) awaitingToken
    = Some st'
    /\ tasks st' !! 0 = Some (Settled (Rejected (ClientError "invalid_grant")))
    /\ currentCredentials st' = currentCredentials awaitingToken
    /\ published st' = published awaitingToken ++ []
    /\ server st' = server awaitingToken
    /\ sessions st' = sessions awaitingToken.
Proof.
  apply (exchange_failure_keeps_credentials Url.query googleAuthUrl awaitingToken 0
           (QStr "XYZ") [] "invalid_grant").
  vm_compute. reflexivity.
Defined.

(** ** Starting over *)

Section StartingOver.

Variable urlQuery : string -> gmap string QueryValue.
Variable clientGenerateAuthUrl : OAuth2Client -> GenerateAuthUrlOpts -> string.

Lemma startServer_bound urlParam st ts :
  isBound (setTasks ts (snd (startServer urlParam st))) (length (sessions st)).
Proof.
  eexists. split.
  - cbn. rewrite lookup_app_r by reflexivity. rewrite Nat.sub_diag. reflexivity.
  - reflexivity.
Qed.

(** X9: once a redirect has been captured, [this.server] is empty (line
    136), so the next call has nothing to close: it constructs its listener
    and opens its page at once, and waits for the redirect. *)
Theorem call_after_redirect_starts_at_once t reached st st1 e :
  step urlQuery clientGenerateAuthUrl (Redirected t reached) st = Some st1 ->
  server st1 = None
  /\ tasks (call clientGenerateAuthUrl e st1)
     = tasks st1 ++ [AwaitRedirection (entryForTokens e) (length (sessions st1))]
  /\ server (call clientGenerateAuthUrl e st1) = Some (length (sessions st1))
  /\ opened (call clientGenerateAuthUrl e st1)
     = opened st1 ++ [entryUrl clientGenerateAuthUrl e st1]
  /\ isBound (call clientGenerateAuthUrl e st1) (length (sessions st1)).
Proof.
  cbn [step]. intros Hstep.
  destruct (afterRedirection_shape urlQuery t reached st st1 Hstep)
    as (f & s & l & x & _ & _ & _ & _ & Hserver & _).
  split; [exact Hserver|].
  rewrite call_openAuthPage. unfold openAuthPageAndGetAuthorizationCode.
  rewrite Hserver.
  split; [reflexivity|]. split; [reflexivity|]. split; [reflexivity|].
  apply startServer_bound.
Qed.

(** X10: a call that finds a listener in [this.server] releases it and
    waits; it neither constructs a listener nor opens the page until the
    close has returned. Then it does both, with the URL computed when the
    call was made. *)
Theorem superseding_call_opens_after_close st s e :
  server st = Some s ->
  let st1 := call clientGenerateAuthUrl e st in
  opened st1 = opened st
  /\ length (sessions st1) = length (sessions st)
  /\ ~ isBound st1 s
  /\ exists st2,
       step urlQuery clientGenerateAuthUrl (CloseDone (length (tasks st))) st1 = Some st2
       /\ opened st2 = opened st ++ [entryUrl clientGenerateAuthUrl e st]
       /\ server st2 = Some (length (sessions st))
       /\ isBound st2 (length (sessions st))
       /\ tasks st2 !! length (tasks st)
          = Some (AwaitRedirection (entryForTokens e) (length (sessions st))).
Proof.
  intros Hs. cbv zeta. rewrite call_openAuthPage, (openAuthPage_supersedes _ _ _ _ Hs).
  set (f := entryForTokens e). set (u := entryUrl clientGenerateAuthUrl e st).
  assert (Hlen : length (sessions (closeServer s st)) = length (sessions st))
    by (cbn; apply length_alter).
  assert (Hts : length (tasks (closeServer s st)) = length (tasks st))
    by (rewrite closeServer_tasks; apply length_fmap).
  split; [reflexivity|]. split; [exact Hlen|]. split.
  { intros (l & Hl & Hst). cbn in Hl. rewrite list_lookup_alter_eq in Hl.
    destruct (sessions st !! s) as [l0|]; [|discriminate].
    injection Hl as <-. exact (release_not_listening l0 Hst). }
  cbn [step]. unfold afterClose. cbn [tasks setTasks].
  rewrite lookup_app_r by (rewrite Hts; reflexivity).
  rewrite Hts, Nat.sub_diag. cbn [lookup list_lookup].
  eexists. split; [reflexivity|].
  split; [reflexivity|]. split; [cbn; rewrite length_alter; reflexivity|]. split.
  - rewrite <- Hlen.
    exact (startServer_bound u
             (setServer None
                (setTasks (tasks (closeServer s st) ++ [AwaitClose f s u])
                          (closeServer s st))) _).
  - cbn. rewrite length_alter. apply list_lookup_insert_eq.
    rewrite length_app, length_fmap. cbn. lia.
Qed.

End StartingOver.

Lemma call_after_redirect_starts_at_once_witness :
  exists st1,
    step Url.query googleAuthUrl (Redirected 0 "http://127.0.0.1:42813/callback?code=XYZ")
      awaitingRedirect = Some st1
    /\ tasks (call googleAuthUrl (OpenAuthWindowAndGetAuthorizationCode "u1") st1)
       = tasks st1 ++ [AwaitRedirection false 1]
    /\ bound (call googleAuthUrl (OpenAuthWindowAndGetAuthorizationCode "u1") st1) = [1].
Proof.
  destruct (step Url.query googleAuthUrl
              (Redirected 0 "http://127.0.0.1:42813/callback?code=XYZ") awaitingRedirect)
    as [st1|] eqn:Hstep; [|vm_compute in Hstep; discriminate].
  exists st1. split; [reflexivity|].
  destruct (call_after_redirect_starts_at_once Url.query googleAuthUrl _ _ _ _
              (OpenAuthWindowAndGetAuthorizationCode "u1") Hstep)
    as (_ & Htasks & _).
  vm_compute in Hstep. injection Hstep as <-.
  split; [exact Htasks | vm_compute; reflexivity].
Defined.

Lemma superseding_call_opens_after_close_witness :
  opened (call googleAuthUrl (OpenAuthWindowAndGetAuthorizationCode "u1") awaitingRedirect)
  = opened awaitingRedirect
  /\ exists st2,
       run Url.query googleAuthUrl
         [Call (OpenAuthWindowAndGetAuthorizationCode "u1"); CloseDone 1] awaitingRedirect
       = Some st2
       /\ opened st2 = opened awaitingRedirect ++ ["u1"]
       /\ server st2 = Some 1.
Proof.
  destruct (superseding_call_opens_after_close Url.query googleAuthUrl awaitingRedirect 0
              (OpenAuthWindowAndGetAuthorizationCode "u1") eq_refl)
    as (Hopened & _ & _ & st2 & Hstep & Hop2 & Hsrv & _).
  split; [exact Hopened|].
  exists st2. split; [exact Hstep|]. split; [exact Hop2 | exact Hsrv].
Defined.

(** ** Whole runs *)

Lemma release_config l :
  Listener.port (Listener.release l) = Listener.port l
  /\ Listener.callbackPath (Listener.release l) = Listener.callbackPath l
  /\ Listener.successRedirectURL (Listener.release l) = Listener.successRedirectURL l.
Proof. unfold Listener.release. destruct (Listener.status l); repeat split. Qed.

Section Runs.

Variable urlQuery : string -> gmap string QueryValue.
Variable clientGenerateAuthUrl : OAuth2Client -> GenerateAuthUrlOpts -> string.

(** What holds initially and is kept by every event holds after a run. *)
Lemma run_invariant (P : State -> Prop) :
  (forall ev st st', P st -> step urlQuery clientGenerateAuthUrl ev st = Some st' -> P st') ->
  forall evs st st', P st -> run urlQuery clientGenerateAuthUrl evs st = Some st' -> P st'.
Proof.
  intros Hstep. induction evs as [|ev rest IH]; intros st st' HP; cbn [run].
  - intros [= <-]. exact HP.
  - destruct (step urlQuery clientGenerateAuthUrl ev st) as [st1|] eqn:H1; [|discriminate].
    apply IH. exact (Hstep ev st st1 HP H1).
Qed.

Lemma step_static ev st st' :
  step urlQuery clientGenerateAuthUrl ev st = Some st' ->
  heap st' = heap st /\ scopes st' = scopes st /\ options st' = options st
  /\ clientId (oauth2Client st') = clientId (oauth2Client st)
  /\ clientSecret (oauth2Client st') = clientSecret (oauth2Client st)
  /\ redirectUri (oauth2Client st') = redirectUri (oauth2Client st).
Proof.
  destruct ev as [e|t|t reached|t r|tokens|tokens]; cbn [step].
  - intros [= <-]. rewrite call_openAuthPage.
    unfold openAuthPageAndGetAuthorizationCode. destruct (server st); repeat split.
  - unfold afterClose.
    destruct (tasks st !! t) as [[f s u| | |]|]; try discriminate.
    intros [= <-]. repeat split.
  - intros Hstep.
    destruct (afterRedirection_frame urlQuery t reached st st' Hstep)
      as (Hh & Hs & Ho & Hc & _).
    rewrite Hh, Hs, Ho, Hc. repeat split.
  - unfold afterToken.
    destruct (tasks st !! t) as [[| |code|]|]; try discriminate.
    destruct (onClientTokens_fold (emitted r) st)
      as (_ & Hc & _ & _ & _ & _ & _ & _ & Hh & Hs & Ho).
    destruct (outcome r); intros [= <-]; cbn; rewrite Hh, Hs, Ho, Hc; repeat split.
  - intros [= <-]. repeat split.
  - intros [= <-]. repeat split.
Qed.

(** X11: after construction the coordinator never writes to the array
    store again, never changes its options, and never changes the identity
    or the redirect URI of its client, whatever calls, redirects, replies
    and [setTokens] follow. *)
Theorem run_keeps_configuration evs st st' :
  run urlQuery clientGenerateAuthUrl evs st = Some st' ->
  heap st' = heap st /\ scopes st' = scopes st /\ options st' = options st
  /\ clientId (oauth2Client st') = clientId (oauth2Client st)
  /\ clientSecret (oauth2Client st') = clientSecret (oauth2Client st)
  /\ redirectUri (oauth2Client st') = redirectUri (oauth2Client st).
Proof.
  apply (run_invariant
           (fun x => heap x = heap st /\ scopes x = scopes st /\ options x = options st
                     /\ clientId (oauth2Client x) = clientId (oauth2Client st)
                     /\ clientSecret (oauth2Client x) = clientSecret (oauth2Client st)
                     /\ redirectUri (oauth2Client x) = redirectUri (oauth2Client st))).
  - intros ev x x' (H1 & H2 & H3 & H4 & H5 & H6) Hstep.
    destruct (step_static ev x x' Hstep) as (G1 & G2 & G3 & G4 & G5 & G6).
    rewrite G1, G2, G3, G4, G5, G6. repeat split; assumption.
  - repeat split.
Qed.

Lemma configuredBy_startServer o urlParam st ts :
  configuredBy o st -> configuredBy o (setTasks ts (snd (startServer urlParam st))).
Proof.
  intros (Ho & Hu & Hl). split; [exact Ho|]. split; [exact Hu|].
  intros i l Hi. cbn in Hi. apply lookup_snoc_Some in Hi as [[_ Hi] | [_ <-]].
  - exact (Hl i l Hi).
  - cbn. rewrite Ho. repeat split.
Qed.

Lemma configuredBy_step o ev st st' :
  configuredBy o st -> step urlQuery clientGenerateAuthUrl ev st = Some st' ->
  configuredBy o st'.
Proof.
  intros Hcfg. pose proof Hcfg as (Ho & Hu & Hl).
  destruct ev as [e|t|t reached|t r|tokens|tokens]; cbn [step].
  - intros [= <-]. rewrite call_openAuthPage.
    unfold openAuthPageAndGetAuthorizationCode. destruct (server st) as [s|].
    + split; [exact Ho|]. split; [exact Hu|].
      intros i l Hi. cbn in Hi.
      destruct (decide (s = i)) as [->|Hne].
      * rewrite list_lookup_alter_eq in Hi.
        destruct (sessions st !! i) as [l0|] eqn:H0; [|discriminate].
        injection Hi as <-. destruct (release_config l0) as (-> & -> & ->).
        exact (Hl i l0 H0).
      * rewrite list_lookup_alter_ne in Hi by exact Hne. exact (Hl i l Hi).
    + apply (configuredBy_startServer o _ st). exact Hcfg.
  - unfold afterClose.
    destruct (tasks st !! t) as [[f s u| | |]|]; try discriminate.
    intros [= <-]. apply (configuredBy_startServer o u (setServer None st)). exact Hcfg.
  - intros Hstep.
    destruct (afterRedirection_frame urlQuery t reached st st' Hstep)
      as (_ & _ & Ho' & Hc' & _).
    destruct (afterRedirection_shape urlQuery t reached st st' Hstep)
      as (f & s & l & x & _ & Hs & _ & Hsess & _).
    split; [congruence|]. split; [congruence|].
    intros i l' Hi. rewrite Hsess in Hi.
    apply list_lookup_insert_Some in Hi as [(<- & <- & _) | [_ Hi]].
    + exact (Hl s l Hs).
    + exact (Hl i l' Hi).
  - unfold afterToken.
    destruct (tasks st !! t) as [[| |code|]|]; try discriminate.
    destruct (onClientTokens_fold (emitted r) st)
      as (_ & Hc & _ & Hss & _ & _ & _ & _ & _ & _ & Hopt).
    destruct (outcome r); intros [= <-]; (split; [cbn; congruence|]);
      (split; [cbn; congruence|]); cbn; rewrite Hss; exact Hl.
  - intros [= <-]. exact Hcfg.
  - intros [= <-]. exact Hcfg.
Qed.

(** X12: every listener the coordinator ever constructs listens on the
    port of its merged options, on the path [/callback], and redirects to
    the options' success URL; the port is the one of the redirect URI the
    client was constructed with. *)
Theorem listeners_follow_options id secret r opts (h : Heap) st0 evs st :
  constructor id secret r opts h = Some st0 ->
  run urlQuery clientGenerateAuthUrl evs st0 = Some st ->
  configuredBy (mergeOptions opts) st.
Proof.
  intros Hc. apply (run_invariant (configuredBy (mergeOptions opts))).
  - intros ev x x'. apply configuredBy_step.
  - unfold constructor in Hc. destruct (h !! r) as [a|]; [|discriminate].
    injection Hc as <-. split; [reflexivity|]. split; [reflexivity|].
    intros i l Hi. cbn in Hi. rewrite lookup_nil in Hi. discriminate.
Qed.

Lemma step_published ev st st' :
  step urlQuery clientGenerateAuthUrl ev st = Some st' ->
  published st' = published st ++ clientEventsOf ev.
Proof.
  destruct ev as [e|t|t reached|t r|tokens|tokens]; cbn [step clientEventsOf].
  - intros [= <-]. rewrite call_openAuthPage, app_nil_r.
    unfold openAuthPageAndGetAuthorizationCode. destruct (server st); reflexivity.
  - unfold afterClose.
    destruct (tasks st !! t) as [[f s u| | |]|]; try discriminate.
    intros [= <-]. rewrite app_nil_r. reflexivity.
  - intros Hstep. rewrite app_nil_r.
    apply (afterRedirection_frame urlQuery t reached st st' Hstep).
  - unfold afterToken.
    destruct (tasks st !! t) as [[| |code|]|]; try discriminate.
    destruct (onClientTokens_fold (emitted r) st) as (Hp & _).
    destruct (outcome r); intros [= <-]; cbn; exact Hp.
  - intros [= <-]. rewrite app_nil_r. reflexivity.
  - intros [= <-]. reflexivity.
Qed.

(** X13: over any run, what the coordinator publishes on its ['tokens']
    channel is what its client fired, event for event and in order: it
    publishes nothing of its own, neither on a call, nor on a redirect, nor
    on [setTokens]. *)
Theorem published_is_client_events evs : forall st st',
  run urlQuery clientGenerateAuthUrl evs st = Some st' ->
  published st' = published st ++ clientEvents evs.
Proof.
  induction evs as [|ev rest IH]; intros st st'; cbn [run clientEvents].
  - intros [= <-]. rewrite app_nil_r. reflexivity.
  - destruct (step urlQuery clientGenerateAuthUrl ev st) as [st1|] eqn:H1; [|discriminate].
    intros Hrest. rewrite (IH st1 st' Hrest), (step_published ev st st1 H1).
    rewrite app_assoc. reflexivity.
Qed.

Lemma step_pages ev st st' :
  length (opened st) = length (sessions st) ->
  step urlQuery clientGenerateAuthUrl ev st = Some st' ->
  length (opened st') = length (sessions st').
Proof.
  intros Hlen. destruct ev as [e|t|t reached|t r|tokens|tokens]; cbn [step].
  - intros [= <-]. rewrite call_openAuthPage.
    unfold openAuthPageAndGetAuthorizationCode. destruct (server st) as [s|]; cbn.
    + rewrite length_alter. exact Hlen.
    + rewrite !length_app, Hlen. reflexivity.
  - unfold afterClose.
    destruct (tasks st !! t) as [[f s u| | |]|]; try discriminate.
    intros [= <-]. cbn. rewrite !length_app, Hlen. reflexivity.
  - intros Hstep.
    destruct (afterRedirection_frame urlQuery t reached st st' Hstep)
      as (_ & _ & _ & _ & _ & Ho & Hs).
    rewrite Ho, Hs. exact Hlen.
  - unfold afterToken.
    destruct (tasks st !! t) as [[| |code|]|]; try discriminate.
    destruct (onClientTokens_fold (emitted r) st)
      as (_ & _ & _ & Hss & _ & _ & _ & Hop & _).
    destruct (outcome r); intros [= <-]; cbn; rewrite Hss, Hop; exact Hlen.
  - intros [= <-]. exact Hlen.
  - intros [= <-]. exact Hlen.
Qed.

(** X14: the coordinator opens one page in the browser for each listener
    it constructs, and none otherwise: at every point of a run there are as
    many opened pages as listeners constructed. *)
Theorem one_page_per_listener id secret r opts (h : Heap) st0 evs st :
  constructor id secret r opts h = Some st0 ->
  run urlQuery clientGenerateAuthUrl evs st0 = Some st ->
  length (opened st) = length (sessions st).
Proof.
  intros Hc.
  apply (run_invariant (fun x => length (opened x) = length (sessions x)) step_pages).
  unfold constructor in Hc. destruct (h !! r) as [a|]; [|discriminate].
  injection Hc as <-. reflexivity.
Qed.

End Runs.

Lemma run_keeps_configuration_witness :
  exists st',
    run Url.query googleAuthUrl sampleRun calendarState = Some st'
    /\ heap st' = heap calendarState /\ scopes st' = scopes calendarState
    /\ options st' = options calendarState
    /\ clientId (oauth2Client st') = clientId (oauth2Client calendarState)
    /\ clientSecret (oauth2Client st') = clientSecret (oauth2Client calendarState)
    /\ redirectUri (oauth2Client st') = redirectUri (oauth2Client calendarState).
Proof.
  destruct (run Url.query googleAuthUrl sampleRun calendarState) as [st'|] eqn:Hrun;
    [|vm_compute in Hrun; discriminate].
  exists st'. split; [reflexivity|].
  exact (run_keeps_configuration Url.query googleAuthUrl sampleRun calendarState st' Hrun).
Defined.

Lemma listeners_follow_options_witness :
  exists st,
    run Url.query googleAuthUrl sampleRun calendarState = Some st
    /\ configuredBy defaultElectronGoogleOAuth2Options st.
Proof.
  destruct (run Url.query googleAuthUrl sampleRun calendarState) as [st|] eqn:Hrun;
    [|vm_compute in Hrun; discriminate].
  exists st. split; [reflexivity|].
  apply (listeners_follow_options Url.query googleAuthUrl "client-id" "client-secret" 0 None
           calendarHeap calendarState sampleRun st); [|exact Hrun].
  vm_compute. reflexivity.
Defined.

Lemma published_is_client_events_witness :
  exists st',
    run Url.query googleAuthUrl sampleRun calendarState = Some st'
    /\ published st' = [sampleBundle; sampleBundle].
Proof.
  destruct (run Url.query googleAuthUrl sampleRun calendarState) as [st'|] eqn:Hrun;
    [|vm_compute in Hrun; discriminate].
  exists st'. split; [reflexivity|].
  exact (published_is_client_events Url.query googleAuthUrl sampleRun calendarState st' Hrun).
Defined.

Lemma one_page_per_listener_witness :
  exists st,
    run Url.query googleAuthUrl sampleRun calendarState = Some st
    /\ length (opened st) = length (sessions st).
Proof.
  destruct (run Url.query googleAuthUrl sampleRun calendarState) as [st|] eqn:Hrun;
    [|vm_compute in Hrun; discriminate].
  exists st. split; [reflexivity|].
  apply (one_page_per_listener Url.query googleAuthUrl "client-id" "client-secret" 0 None
           calendarHeap calendarState sampleRun st); [|exact Hrun].
  vm_compute. reflexivity.
Defined.

Lemma serial_runs_bind_at_most_one_witness :
  exists st,
    serialRun Url.query googleAuthUrl
      [Call (OpenAuthWindowAndGetAuthorizationCode "u0");
       Call (OpenAuthWindowAndGetAuthorizationCode "u1");
       CloseDone 1] calendarState st
    /\ isBound st 1
    /\ (forall j, isBound st j -> j = 1).
Proof.
  destruct serial_supersession as (st & Hrun & Hbound & _).
  assert (H1 : isBound st 1).
  { apply bound_spec. rewrite Hbound. apply list_elem_of_singleton. reflexivity. }
  exists st. split; [exact Hrun|]. split; [exact H1|].
  intros j Hj.
  eapply (serial_runs_bind_at_most_one Url.query googleAuthUrl "client-id" "client-secret" 0
            None calendarHeap calendarState);
    [vm_compute; reflexivity | exact Hrun | exact Hj | exact H1].
Defined.
